(** * METW card enrichment: a shallow embedding of
    [parsers/Step4_enrich_with_metw.py]

  The development follows the Python module top to bottom:

  - Python values the module touches (strings, dictionaries, the JSON
    payload returned by [json.load], rdflib nodes and the graph);
  - [difflib.SequenceMatcher(None, a, b).ratio()], transcribed from
    CPython's [difflib.py] since [similarity_score] is a thin wrapper
    around it;
  - the class [METWEnricher]: [_build_entity_index], [similarity_score],
    [find_best_match] and [enrich_with_cards];
  - the properties of the matcher, the catalog extraction and the linker.

  Modelling conventions.  A Python [str] is the [string] of the bytes of
  its UTF-8 encoding; its characters (code points), which [len], iteration
  and [difflib] see, are the pieces [PyStr.chars] cuts it into.
  [str.lower] is CPython's Unicode lowering, taken from the Unicode
  database: it is a parameter of the development ([str_lower]), of which
  two facts are used.  A Python [dict] is an association list in insertion
  order with unique keys.  A [float] score is the exact rational [2*M/T] and a
  threshold is the decimal the caller writes ([0.85] is [17/20]); the IEEE
  quotient of two integers below [2^53] is correctly rounded and rounding
  is monotone, so the comparisons the module performs agree with the
  rational ones for all strings of realistic length.  Exceptions are
  values of [result]; the rdflib graph is the state of a small state and
  exception monad.  [print] calls are dropped. *)

From Stdlib Require Import QArith Ascii.
From Stdlib Require String.
From stdpp Require Import gmap strings list pretty.

Close Scope Q_scope.

(** ** Python strings *)

Module PyStr.

(** [c.lower()] on one ASCII character. *)
Definition lower_ascii (c : ascii) : ascii :=
  let n := Ascii.nat_of_ascii c in
  if bool_decide (65 ≤ n ≤ 90) then Ascii.ascii_of_nat (n + 32) else c.

(** [s.lower()] on ASCII text.  The examples are evaluated with it; the
    development takes [str.lower] from the runtime ([str_lower] below). *)
Fixpoint ascii_lower (s : string) : string :=
  match s with
  | EmptyString => EmptyString
  | String c s' => String (lower_ascii c) (ascii_lower s')
  end.

(** [s.replace(' ', new)].  In UTF-8 the byte of the space occurs in no other
    character. *)
Fixpoint replace_space (new : string) (s : string) : string :=
  match s with
  | EmptyString => EmptyString
  | String c s' =>
      if decide (c = " "%char) then new +:+ replace_space new s'
      else String c (replace_space new s')
  end.

(** The bytes of the encoding. *)
Definition bytes (s : string) : list ascii := String.list_ascii_of_string s.

(** A byte [10xxxxxx] continues the character that the bytes before it
    began. *)
Definition is_continuation (b : ascii) : bool :=
  let n := Ascii.nat_of_ascii b in
  bool_decide (128 ≤ n < 192).

(** The continuation bytes a string starts with, and the characters after
    them. *)
Fixpoint split_chars (s : string) : string * list string :=
  match s with
  | EmptyString => (EmptyString, [])
  | String b s' =>
      let '(pending, cs) := split_chars s' in
      if is_continuation b then (String b pending, cs)
      else (EmptyString, String b pending :: cs)
  end.

(** [list(s)]: the characters of the string, one string per code point; the
    sequence that [len(s)], [for c in s] and [difflib] work on.  Two
    characters are equal when their bytes are.  (A lone surrogate, which a
    JSON escape can produce, stands for the three bytes of its code point.) *)
Definition chars (s : string) : list string :=
  let '(pending, cs) := split_chars s in
  if decide (pending = EmptyString) then cs else pending :: cs.

End PyStr.

(** ** Python dictionaries

  Insertion-ordered, one entry per key.  [dict_set] is [d[k] = v]: an
  existing key keeps its position and takes the new value, a new key goes to
  the end. *)

Section PyDict.
Context {V : Type}.

Definition pydict := list (string * V).

Fixpoint dict_get (k : string) (d : list (string * V)) : option V :=
  match d with
  | [] => None
  | (k', v) :: d' => if decide (k' = k) then Some v else dict_get k d'
  end.

(** [k in d] *)
Definition dict_mem (k : string) (d : list (string * V)) : bool :=
  bool_decide (is_Some (dict_get k d)).

(** [d.get(k, default)] *)
Definition dict_get_default (k : string) (default : V) (d : list (string * V)) : V :=
  match dict_get k d with Some v => v | None => default end.

(** [d[k] = v] *)
Fixpoint dict_set (k : string) (v : V) (d : list (string * V)) : list (string * V) :=
  match d with
  | [] => [(k, v)]
  | (k', v') :: d' =>
      if decide (k' = k) then (k, v) :: d' else (k', v') :: dict_set k v d'
  end.

(** [d.items()], [d.keys()], [d.values()] *)
Definition dict_items (d : list (string * V)) : list (string * V) := d.
Definition dict_keys (d : list (string * V)) : list string := d.*1.
Definition dict_values (d : list (string * V)) : list V := d.*2.

(** The representation invariant of a dictionary. *)
Definition dict_wf (d : list (string * V)) : Prop := NoDup d.*1.

End PyDict.

Arguments pydict : clear implicits.

(** ** [difflib.SequenceMatcher] with [isjunk=None], [autojunk=True]

  Transcribed from CPython's [Lib/difflib.py].  Sequence positions are
  natural numbers; [a] and [b] are the two sequences. *)

Module Difflib.
Section SequenceMatcher.
Context {A : Type} `{EqDecision A}.
Variables a b : list A.

(** [__chain_b]: [b2j[x]] lists the positions of [x] in [b] in increasing
    order; with [isjunk=None] nothing is junk; when [len(b) >= 200] the
    elements occurring more than [len(b)//100 + 1] times are "popular" and
    their entries are deleted. *)
Definition positions (x : A) : list nat :=
  filter (λ j, b !! j = Some x) (seq 0 (length b)).

Definition popular (x : A) : bool :=
  bool_decide (200 ≤ length b)
  && bool_decide (length b / 100 + 1 < length (positions x)).

(** [b2j.get(x, nothing)] *)
Definition b2j_get (x : A) : list nat :=
  if popular x then [] else positions x.

(** [j2len.get(j-1, 0)]; position [-1] is never a key. *)
Definition j2len_get_pred (j2len : gmap nat nat) (j : nat) : nat :=
  match j with
  | 0 => 0
  | S j' => default 0 (j2len !! j')
  end.

(** The inner loop [for j in b2j.get(a[i], nothing)] of
    [find_longest_match], with its [continue] and [break].  The state is
    [newj2len] and [(besti, bestj, bestsize)]. *)
Fixpoint scan_row (i blo bhi : nat) (j2len : gmap nat nat) (js : list nat)
    (st : gmap nat nat * (nat * nat * nat)) : gmap nat nat * (nat * nat * nat) :=
  match js with
  | [] => st
  | j :: js' =>
      if bool_decide (j < blo) then scan_row i blo bhi j2len js' st
      else if bool_decide (bhi ≤ j) then st
      else
        let '(newj2len, (besti, bestj, bestsize)) := st in
        let k := j2len_get_pred j2len j + 1 in
        let best' :=
          if bool_decide (bestsize < k) then (i + 1 - k, j + 1 - k, k)
          else (besti, bestj, bestsize) in
        scan_row i blo bhi j2len js' (<[j := k]> newj2len, best')
  end.

(** One iteration of [for i in range(alo, ahi)]. *)
Definition row_step (blo bhi : nat)
    (st : gmap nat nat * (nat * nat * nat)) (i : nat) :
    gmap nat nat * (nat * nat * nat) :=
  let '(j2len, best) := st in
  let js := match a !! i with Some x => b2j_get x | None => [] end in
  scan_row i blo bhi j2len js (∅, best).

(** The first [while]: extend the match to the left over equal elements
    (nothing is junk, so [not isbjunk(...)] always holds). *)
Fixpoint extend_left (alo blo besti bestj bestsize : nat) : nat * nat * nat :=
  match besti, bestj with
  | S i', S j' =>
      if bool_decide (alo < besti) && bool_decide (blo < bestj)
         && bool_decide (a !! i' = b !! j')
      then extend_left alo blo i' j' (S bestsize)
      else (besti, bestj, bestsize)
  | _, _ => (besti, bestj, bestsize)
  end.

(** The second [while]: extend to the right.  [n] bounds the number of
    iterations; [ahi - (besti + bestsize)] is always enough since the loop
    stops when [besti + bestsize] reaches [ahi]. *)
Fixpoint extend_right (n ahi bhi besti bestj bestsize : nat) : nat :=
  match n with
  | 0 => bestsize
  | S n' =>
      if bool_decide (besti + bestsize < ahi)
         && bool_decide (bestj + bestsize < bhi)
         && bool_decide (a !! (besti + bestsize) = b !! (bestj + bestsize))
      then extend_right n' ahi bhi besti bestj (S bestsize)
      else bestsize
  end.

(** [find_longest_match(alo, ahi, blo, bhi)].  The two last loops of the
    Python function only run over junk elements and there are none.  The
    ranges lie within the sequences, as in every call [get_matching_blocks]
    makes, so the subscripts [a[i]] and [b[j]] are defined. *)
Definition find_longest_match (alo ahi blo bhi : nat) : nat * nat * nat :=
  let '(_, (besti, bestj, bestsize)) :=
    foldl (row_step blo bhi) (∅, (alo, blo, 0)) (seq alo (ahi - alo)) in
  let '(besti, bestj, bestsize) := extend_left alo blo besti bestj bestsize in
  (besti, bestj,
   extend_right (ahi - (besti + bestsize)) ahi bhi besti bestj bestsize).

(** The [while queue] loop of [get_matching_blocks]; [queue.pop()] takes the
    last element pushed, so the queue is a stack with its top at the head.
    [None] when [fuel] iterations were not enough. *)
Fixpoint blocks_loop (fuel : nat) (queue : list (nat * nat * nat * nat))
    (matching_blocks : list (nat * nat * nat)) : option (list (nat * nat * nat)) :=
  match queue with
  | [] => Some matching_blocks
  | (alo, ahi, blo, bhi) :: queue' =>
      match fuel with
      | 0 => None
      | S fuel' =>
          let '(i, j, k) := find_longest_match alo ahi blo bhi in
          if bool_decide (k = 0) then blocks_loop fuel' queue' matching_blocks
          else
            let q1 :=
              if bool_decide (alo < i) && bool_decide (blo < j)
              then (alo, i, blo, j) :: queue' else queue' in
            let q2 :=
              if bool_decide (i + k < ahi) && bool_decide (j + k < bhi)
              then (i + k, ahi, j + k, bhi) :: q1 else q1 in
            blocks_loop fuel' q2 (matching_blocks ++ [(i, j, k)])
      end
  end.

(** Lexicographic order on triples, as [list.sort] on tuples. *)
Definition block_leb (x y : nat * nat * nat) : bool :=
  let '(i1, j1, k1) := x in
  let '(i2, j2, k2) := y in
  bool_decide (i1 < i2)
  || (bool_decide (i1 = i2)
      && (bool_decide (j1 < j2) || (bool_decide (j1 = j2) && bool_decide (k1 ≤ k2)))).

Fixpoint block_insert (x : nat * nat * nat) (l : list (nat * nat * nat)) :=
  match l with
  | [] => [x]
  | y :: l' => if block_leb x y then x :: y :: l' else y :: block_insert x l'
  end.

Definition block_sort (l : list (nat * nat * nat)) : list (nat * nat * nat) :=
  foldr block_insert [] l.

(** The loop collapsing adjacent blocks; the state is
    [(i1, j1, k1, non_adjacent)]. *)
Definition collapse_step (st : nat * nat * nat * list (nat * nat * nat))
    (x : nat * nat * nat) : nat * nat * nat * list (nat * nat * nat) :=
  let '(i1, j1, k1, non_adjacent) := st in
  let '(i2, j2, k2) := x in
  if bool_decide (i1 + k1 = i2) && bool_decide (j1 + k1 = j2)
  then (i1, j1, k1 + k2, non_adjacent)
  else (i2, j2, k2,
        if bool_decide (k1 = 0) then non_adjacent
        else non_adjacent ++ [(i1, j1, k1)]).

Definition collapse (matching_blocks : list (nat * nat * nat)) :
    list (nat * nat * nat) :=
  let '(i1, j1, k1, non_adjacent) :=
    foldl collapse_step (0, 0, 0, []) matching_blocks in
  let non_adjacent :=
    if bool_decide (k1 = 0) then non_adjacent else non_adjacent ++ [(i1, j1, k1)] in
  non_adjacent ++ [(length a, length b, 0)].

(** Every iteration of the [while] either ends a range or produces a block
    and splits the range, so [2 * len(a) + 1] iterations always suffice
    (see [blocks_loop_total]). *)
Definition get_matching_blocks : option (list (nat * nat * nat)) :=
  collapse ∘ block_sort
    <$> blocks_loop (2 * length a + 1) [(0, length a, 0, length b)] [].

(** [_calculate_ratio(matches, length)] *)
Definition _calculate_ratio (matches length : nat) : Q :=
  if bool_decide (length = 0) then 1%Q
  else (Z.of_nat (2 * matches) # Pos.of_nat length)%Q.

(** [ratio()] *)
Definition ratio_opt : option Q :=
  (λ blocks, _calculate_ratio (sum_list (map (λ t, t.2) blocks)) (length a + length b))
    <$> get_matching_blocks.

End SequenceMatcher.
End Difflib.


(** [SequenceMatcher(None, a, b).ratio()] on two strings.  The bounded loop
    never runs out of iterations ([ratio_opt_total]), so the default is never
    taken. *)
Definition SequenceMatcher_ratio (a b : string) : Q :=
  default 1%Q (Difflib.ratio_opt (PyStr.chars a) (PyStr.chars b)).

(** ** rdflib terms and the graph *)

Inductive node :=
| URIRef (iri : string)
| BNode (id : string)
| Literal (lexical : string) (lang : option string) (datatype : option string).

#[global] Instance node_eq_dec : EqDecision node.
Proof. solve_decision. Defined.

Definition node_encode (n : node) : string + string + string * option string * option string :=
  match n with
  | URIRef iri => inl (inl iri)
  | BNode id => inl (inr id)
  | Literal lexical lang datatype => inr (lexical, lang, datatype)
  end.

Definition node_decode (x : string + string + string * option string * option string) : node :=
  match x with
  | inl (inl iri) => URIRef iri
  | inl (inr id) => BNode id
  | inr (lexical, lang, datatype) => Literal lexical lang datatype
  end.

#[global] Instance node_countable : Countable node.
Proof. refine (inj_countable' node_encode node_decode _). by intros []. Defined.

(** A statement is a subject, predicate, object triple; [rdflib.Graph] is a
    set of them ([Graph.add] of a triple already there changes nothing). *)
Abbreviation triple := (node * node * node)%type.
Abbreviation graph := (gset (node * node * node)).

(** [str(n)] of an rdflib term: all three are subclasses of [str]. *)
Definition node_str (n : node) : string :=
  match n with
  | URIRef iri => iri
  | BNode id => id
  | Literal lexical _ _ => lexical
  end.

(** [bool(n)], as tested by [if entity_uri:]: the subject of a statement
    is a [URIRef] or a [BNode], a plain [str] that is true when not empty. *)
Definition node_truthy (n : node) : bool :=
  bool_decide (node_str n ≠ "").

(** [Namespace("http://schema.org/")[name]] and the other vocabularies. *)
Definition SCHEMA (name : string) : node := URIRef ("http://schema.org/" +:+ name).
Definition METW (name : string) : node := URIRef ("http://metw.org/card/" +:+ name).
Definition RDF_type : node := URIRef "http://www.w3.org/1999/02/22-rdf-syntax-ns#type".
Definition RDFS_label : node := URIRef "http://www.w3.org/2000/01/rdf-schema#label".

(** The rows of [SELECT ?entity ?name WHERE { ?entity schema:name ?name . }],
    in the enumeration order of the store. *)
Definition query_names (g : graph) : list (node * node) :=
  omap (λ t : triple,
          let '(s, p, o) := t in
          if decide (p = SCHEMA "name") then Some (s, o) else None)
       (elements g).

(** ** The value returned by [json.load]

    [JFloat m e] is the float [m * 2^e]; the module only observes whether it
    is zero. *)

#[warnings="-register-all"]
Inductive json :=
| JNull
| JBool (b : bool)
| JInt (n : Z)
| JFloat (mantissa exponent : Z)
| JStr (s : string)
| JArr (l : list json)
| JObj (d : list (string * json)).

(** [bool(v)] *)
Definition truthy (v : json) : bool :=
  match v with
  | JNull => false
  | JBool b => b
  | JInt n => bool_decide (n ≠ 0%Z)
  | JFloat m _ => bool_decide (m ≠ 0%Z)
  | JStr s => bool_decide (s ≠ "")
  | JArr l => bool_decide (l ≠ [])
  | JObj d => bool_decide (d ≠ [])
  end.

(** ** Exceptions and the enrichment monad *)

Inductive exn := AttributeError | TypeError.

Inductive result (A : Type) :=
| Ok (a : A)
| Raise (e : exn).
Arguments Ok {A} a.
Arguments Raise {A} e.

(** A computation reads and extends [self.graph] and returns or raises. *)
Definition M (A : Type) : Type := graph → result A * graph.

Definition ret {A} (a : A) : M A := λ g, (Ok a, g).
Definition raise {A} (e : exn) : M A := λ g, (Raise e, g).
Definition bind {A B} (m : M A) (k : A → M B) : M B :=
  λ g, match m g with
       | (Ok a, g') => k a g'
       | (Raise e, g') => (Raise e, g')
       end.
Definition lift {A} (r : result A) : M A := λ g, (r, g).

(** [self.graph.add(t)] *)
Definition graph_add (t : triple) : M unit := λ g, (Ok tt, {[ t ]} ∪ g).

#[global] Instance M_ret : MRet M := @ret.
#[global] Instance M_bind : MBind M := λ A B k m, bind m k.

(** The graph a computation leaves behind and the value it produces. *)
Definition graph_after {A} (m : M A) (g : graph) : graph := (m g).2.
Definition outcome {A} (m : M A) (g : graph) : result A := (m g).1.

(** ** The built-ins of Python and rdflib that the module calls

    [s.lower()] is the lowering of the Unicode database (with its
    final-sigma rule, and with characters such as U+0130 whose lowering is
    two code points long).  Two facts of it are used: lowering a lowered
    string changes nothing, every code point the tables produce being mapped
    to itself, and the empty string is lowered to itself.

    [str(v)] (also what an f-string applies) and [Literal(v, lang='en')] are
    library code.  On a [str] both are known exactly; on other values the
    module's behaviour is whatever the runtime does. *)
Class PyRuntime := {
  str_lower : string → string;
  str_lower_idemp : ∀ s, str_lower (str_lower s) = str_lower s;
  str_lower_empty : str_lower "" = "";
  py_str : json → string;
  py_str_JStr : ∀ s, py_str (JStr s) = s;
  rdflib_Literal_en : json → result node;
  rdflib_Literal_en_JStr :
    ∀ s, rdflib_Literal_en (JStr s) = Ok (Literal s (Some "en") None)
}.

(** A runtime to evaluate examples with.  Its [lower] follows CPython on
    ASCII text and its [str] on [None], [bool], [int] and [str]; the lowering
    of other characters, the [repr] of floats, lists and dictionaries and the
    literals rdflib builds from values other than [str] are not modelled, and
    no example below uses them. *)
Definition example_str (v : json) : string :=
  match v with
  | JNull => "None"
  | JBool true => "True"
  | JBool false => "False"
  | JInt n => pretty n
  | JStr s => s
  | JFloat _ _ => "<float>"
  | JArr _ => "<list>"
  | JObj _ => "<dict>"
  end.

Definition example_Literal_en (v : json) : result node :=
  Ok (Literal (example_str v) (Some "en") None).

Definition example_runtime : PyRuntime.
Proof.
  refine {| str_lower := PyStr.ascii_lower;
            py_str := example_str;
            py_str_JStr := λ s, eq_refl;
            rdflib_Literal_en := example_Literal_en;
            rdflib_Literal_en_JStr := λ s, eq_refl |}.
  - intros s. induction s as [|c s IH]; simpl; [reflexivity|].
    f_equal; [|exact IH].
    destruct c as [[] [] [] [] [] [] [] []]; reflexivity.
  - reflexivity.
Defined.

Section Enricher.
Context {runtime : PyRuntime}.

(** ** class [METWEnricher] *)

(** One iteration of the loop of [_build_entity_index]: the lowercased name
    and the same without spaces both point at the entity. *)
Definition index_row (index : pydict node) (row : node * node) : pydict node :=
  let '(entity_uri, row_name) := row in
  let name := str_lower (node_str row_name) in
  let index := dict_set name entity_uri index in
  dict_set (PyStr.replace_space "" name) entity_uri index.

(** [_build_entity_index], on the rows of the query. *)
Definition _build_entity_index (results : list (node * node)) : pydict node :=
  foldl index_row [] results.

(** [self.entity_index] as [__init__] leaves it for a loaded graph. *)
Definition entity_index_of (g : graph) : pydict node :=
  _build_entity_index (query_names g).

(** [similarity_score] *)
Definition similarity_score (str1 str2 : string) : Q :=
  SequenceMatcher_ratio (str_lower str1) (str_lower str2).

End Enricher.

(** [x < y] on scores. *)
Definition Qlt_bool (x y : Q) : bool := negb (Qle_bool y x).

Section Matcher.
Context {runtime : PyRuntime}.
(** The method [find_best_match] reaches the score through
    [self.similarity_score]; the matcher is written over that method. *)
Variable score_method : string → string → Q.

(** The body of [for entity_name, entity_uri in self.entity_index.items()];
    the state is [(best_score, best_match)]. *)
Definition fuzzy_step (card_name : string) (threshold : Q)
    (st : Q * option node) (item : string * node) : Q * option node :=
  let '(best_score, best_match) := st in
  let '(entity_name, entity_uri) := item in
  let score := score_method card_name entity_name in
  if Qlt_bool best_score score && Qle_bool threshold score
  then (score, Some entity_uri)
  else (best_score, best_match).

Definition fuzzy_match (entity_index : pydict node) (card_name : string)
    (threshold : Q) : option node :=
  (foldl (fuzzy_step card_name threshold) (0%Q, None) (dict_items entity_index)).2.

Definition find_best_match_by (entity_index : pydict node) (card_name : string)
    (threshold : Q) : option node :=
  let card_name_lower := str_lower card_name in
  match dict_get card_name_lower entity_index with
  | Some entity_uri => Some entity_uri
  | None => fuzzy_match entity_index card_name threshold
  end.

End Matcher.

(** [find_best_match] *)
Definition find_best_match {runtime : PyRuntime} :
    pydict node → string → Q → option node :=
  find_best_match_by similarity_score.

(** The default [threshold=0.85]. *)
Definition default_threshold : Q := (17 # 20)%Q.

(** [find_best_match] with a ghost log of the keys handed to
    [self.similarity_score], in call order. *)
Section MatcherLog.
Context {runtime : PyRuntime}.
Variable score_method : string → string → Q.

Definition fuzzy_step_logged (card_name : string) (threshold : Q)
    (st : Q * option node * list string) (item : string * node) :
    Q * option node * list string :=
  let '(best_score, best_match, scored) := st in
  let '(entity_name, entity_uri) := item in
  let score := score_method card_name entity_name in
  if Qlt_bool best_score score && Qle_bool threshold score
  then (score, Some entity_uri, scored ++ [entity_name])
  else (best_score, best_match, scored ++ [entity_name]).

Definition find_best_match_logged (entity_index : pydict node) (card_name : string)
    (threshold : Q) : option node * list string :=
  let card_name_lower := str_lower card_name in
  match dict_get card_name_lower entity_index with
  | Some entity_uri => (Some entity_uri, [])
  | None =>
      let '(_, best_match, scored) :=
        foldl (fuzzy_step_logged card_name threshold) (0%Q, None, [])
          (dict_items entity_index) in
      (best_match, scored)
  end.

End MatcherLog.

Section Enrich.
Context {runtime : PyRuntime}.
Variable entity_index : pydict node.

(** The inner loop [for card_id, card in set_data['cards'].items()]. *)
Definition append_cards (all_cards : list json) (cards : list (string * json)) : list json :=
  foldl (λ all_cards item, all_cards ++ [item.2]) all_cards (dict_items cards).

(** The loop [for set_key, set_data in cards_data.items()].
    [set_data['cards'].items()] raises [AttributeError] when the value under
    ['cards'] is not a dictionary. *)
Fixpoint collect_nested (items : list (string * json)) (all_cards : list json) :
    result (list json) :=
  match items with
  | [] => Ok all_cards
  | (set_key, set_data) :: items' =>
      match set_data with
      | JObj set_dict =>
          match dict_get "cards" set_dict with
          | Some (JObj cards) => collect_nested items' (append_cards all_cards cards)
          | Some _ => Raise AttributeError
          | None => collect_nested items' all_cards
          end
      | _ => collect_nested items' all_cards
      end
  end.

(** Lines 108-122: the value bound to [all_cards]. *)
Definition extract_cards (cards_data : json) : result json :=
  match cards_data with
  | JObj d =>
      match collect_nested (dict_items d) [] with
      | Ok [] =>
          Ok (dict_get_default "cards" (dict_get_default "data" (JArr []) d) d)
      | Ok all_cards => Ok (JArr all_cards)
      | Raise e => Raise e
      end
  | _ => Ok cards_data
  end.

(** [len(v)] *)
Definition py_len (v : json) : result nat :=
  match v with
  | JArr l => Ok (length l)
  | JObj d => Ok (length d)
  | JStr s => Ok (length (PyStr.chars s))
  | _ => Raise TypeError
  end.

(** The elements [for card in v] runs over: the items of a list, the keys of
    a dictionary, the characters of a string. *)
Definition py_iter (v : json) : result (list json) :=
  match v with
  | JArr l => Ok l
  | JObj d => Ok (JStr <$> dict_keys d)
  | JStr s => Ok (JStr <$> PyStr.chars s)
  | _ => Raise TypeError
  end.

(** Lines 136-142: the multilingual name. *)
Definition resolve_card_name (card_name_obj : json) : json :=
  match card_name_obj with
  | JObj names =>
      dict_get_default "en"
        (dict_get_default "es" (dict_get_default "fr" (JStr "") names) names) names
  | _ => card_name_obj
  end.

(** Lines 152-153: the node of the card. *)
Definition card_uri_of (card : pydict json) (card_name : string) : node :=
  let card_id := dict_get_default "id" (JStr (PyStr.replace_space "_" card_name)) card in
  METW (py_str card_id).

(** Lines 151-176, the body of [if entity_uri:]. *)
Definition link_card (card : pydict json) (card_name : string) (entity_uri : node) :
    M unit :=
  let card_uri := card_uri_of card card_name in
  graph_add (card_uri, RDF_type, SCHEMA "Thing") ;;
  graph_add (card_uri, RDFS_label, Literal card_name (Some "en") None) ;;
  graph_add (entity_uri, SCHEMA "subjectOf", card_uri) ;;
  match dict_get "type" card with
  | Some card_type =>
      lit ← lift (rdflib_Literal_en card_type);
      graph_add (card_uri, SCHEMA "additionalType", lit)
  | None => ret tt
  end ;;
  match dict_get "alignment" card with
  | Some alignment =>
      graph_add (card_uri, SCHEMA "additionalProperty",
                 Literal ("alignment: " +:+ py_str alignment) (Some "en") None)
  | None => ret tt
  end ;;
  let card_set := dict_get_default "set" (JStr "") card in
  if truthy card_set
  then graph_add (card_uri, SCHEMA "isPartOf",
                  Literal ("METW Set: " +:+ py_str card_set) (Some "en") None)
  else ret tt.

(** The body of [for card in all_cards]; the result tells whether
    [linked_count] is incremented.  [card.get] exists on dictionaries only and
    [card_name.lower()], the first thing [find_best_match] evaluates, on
    strings only. *)
Definition process_card (card : json) : M bool :=
  match card with
  | JObj d =>
      let card_name_obj := dict_get_default "name" (JStr "") d in
      let card_name := resolve_card_name card_name_obj in
      if negb (truthy card_name) then ret false
      else
        match card_name with
        | JStr s =>
            match find_best_match entity_index s default_threshold with
            | Some entity_uri =>
                if node_truthy entity_uri
                then link_card d s entity_uri ;; ret true
                else ret false
            | None => ret false
            end
        | _ => raise AttributeError
        end
  | _ => raise AttributeError
  end.

Fixpoint for_cards (all_cards : list json) (linked_count : nat) : M nat :=
  match all_cards with
  | [] => ret linked_count
  | card :: rest =>
      process_card card ≫= λ linked : bool,
      for_cards rest (if linked then linked_count + 1 else linked_count)
  end.

(** [enrich_with_cards] once the file has been read: [cards_data] is what
    [json.load] returned. *)
Definition enrich_cards_data (cards_data : json) : M nat :=
  all_cards ← lift (extract_cards cards_data);
  n ← lift (py_len all_cards);
  if bool_decide (n = 0) then ret 0
  else
    cards ← lift (py_iter all_cards);
    for_cards cards 0.

(** [enrich_with_cards]; [None] is a missing file. *)
Definition enrich_with_cards (cards_file : option json) : M nat :=
  match cards_file with
  | None => ret 0
  | Some cards_data => enrich_cards_data cards_data
  end.

End Enrich.

(** ** The catalog policy in the words of the specification

    These definitions restate sections 4.4 and 4.5 of the specification; the
    theorems below compare them with the code above. *)

(** The card objects under the ['cards'] sub-mapping of one top-level value. *)
Definition nested_cards_of (set_data : json) : list json :=
  match set_data with
  | JObj set_dict =>
      match dict_get "cards" set_dict with
      | Some (JObj cards) => dict_values cards
      | _ => []
      end
  | _ => []
  end.

(** Form (a): every nested card object, flattened into one sequence. *)
Definition nested_collection (d : pydict json) : list json :=
  concat (nested_cards_of <$> dict_values d).

(** Form (b): the top-level ['cards'] key, then ['data'], then nothing. *)
Definition flat_fallback (d : pydict json) : json :=
  match dict_get "cards" d with
  | Some v => v
  | None =>
      match dict_get "data" d with
      | Some v => v
      | None => JArr []
      end
  end.

Definition extract_policy (cards_data : json) : json :=
  match cards_data with
  | JObj d =>
      match nested_collection d with
      | [] => flat_fallback d
      | all_cards => JArr all_cards
      end
  | _ => cards_data
  end.

(** A top-level value is usable when what it holds under ['cards'], if
    anything, is a mapping. *)
Definition nested_ok (set_data : json) : bool :=
  match set_data with
  | JObj set_dict =>
      match dict_get "cards" set_dict with
      | Some (JObj _) | None => true
      | Some _ => false
      end
  | _ => true
  end.

Definition payload_ok (cards_data : json) : bool :=
  match cards_data with
  | JObj d => forallb nested_ok (dict_values d)
  | _ => true
  end.

(** The name in one language, when it is there and not empty. *)
Definition name_in (lang : string) (names : pydict json) : option json :=
  match dict_get lang names with
  | Some v => if truthy v then Some v else None
  | None => None
  end.

(** Name resolution: the English name, else the Spanish one, else the French
    one, else [""] when all are absent or empty. *)
Definition name_by_priority (names : pydict json) : json :=
  match name_in "en" names with
  | Some v => v
  | None =>
      match name_in "es" names with
      | Some v => v
      | None =>
          match name_in "fr" names with
          | Some v => v
          | None => JStr ""
          end
      end
  end.

(** ** The statements of the linker, listed *)

Section LinkerPolicy.
Context {runtime : PyRuntime}.

(** The card identifier: the ['id'] field when present, otherwise the
    resolved name with spaces replaced by underscores. *)
Definition card_identifier (card : pydict json) (card_name : string) : string :=
  match dict_get "id" card with
  | Some card_id => py_str card_id
  | None => PyStr.replace_space "_" card_name
  end.

(** The optional statements: the type and the alignment when the field is
    present, the set when the field is present and not empty.  The type is
    carried by the literal rdflib builds from the raw value. *)
Definition optional_statements (card : pydict json) (card_uri : node) : list triple :=
  match dict_get "type" card with
  | Some card_type =>
      match rdflib_Literal_en card_type with
      | Ok lit => [(card_uri, SCHEMA "additionalType", lit)]
      | Raise _ => []
      end
  | None => []
  end
  ++ match dict_get "alignment" card with
     | Some alignment =>
         [(card_uri, SCHEMA "additionalProperty",
           Literal ("alignment: " +:+ py_str alignment) (Some "en") None)]
     | None => []
     end
  ++ match dict_get "set" card with
     | Some card_set =>
         if truthy card_set
         then [(card_uri, SCHEMA "isPartOf",
                Literal ("METW Set: " +:+ py_str card_set) (Some "en") None)]
         else []
     | None => []
     end.

(** Everything the linker states about one matched card. *)
Definition card_statements (card : pydict json) (card_name : string)
    (entity_uri : node) : list triple :=
  let card_uri := METW (card_identifier card card_name) in
  [(card_uri, RDF_type, SCHEMA "Thing");
   (card_uri, RDFS_label, Literal card_name (Some "en") None);
   (entity_uri, SCHEMA "subjectOf", card_uri)]
  ++ optional_statements card card_uri.

End LinkerPolicy.

(** A computation that only inserts: run from [g] it returns what it returns
    from the empty graph and leaves [g] extended by what it inserts there. *)
Definition inserts_only {A} (m : M A) : Prop :=
  ∀ g, m g = ((m ∅).1, g ∪ (m ∅).2).

(** ** Loop invariants of [find_longest_match] and [get_matching_blocks]

    The state of the row loop is [(j2len, (besti, bestj, bestsize))]. *)

Section Invariants.
Context {A : Type} `{EqDecision A}.

(** After the rows [alo..i-1]: the lengths recorded in [j2len] do not exceed
    the number of rows seen and the best block lies in [alo..i]. *)
Definition in_range (alo i : nat) (st : gmap nat nat * (nat * nat * nat)) : Prop :=
  (∀ j v, st.1 !! j = Some v → v ≤ i - alo)
  ∧ alo ≤ st.2.1.1 ∧ st.2.1.1 + st.2.2 ≤ i.

(** The ranges still in the queue, weighted so that every iteration of the
    [while] loop decreases the sum. *)
Definition queue_measure (queue : list (nat * nat * nat * nat)) : nat :=
  sum_list ((λ r : nat * nat * nat * nat, 2 * (r.1.1.2 - r.1.1.1) + 1) <$> queue).

(** A sequence [s] compared with itself. *)
Variable s : list A.

(** Position [i] holds an element that [b2j] keeps. *)
Definition kept (i : nat) : bool :=
  match s !! i with
  | Some x => negb (Difflib.popular s x)
  | None => false
  end.

(** The number of consecutive kept positions that end just before [i]. *)
Fixpoint run_before (i : nat) : nat :=
  match i with
  | 0 => 0
  | S i' => if kept i' then S (run_before i') else 0
  end.

(** After the rows [0..i-1] of [s] against [s]: the best block sits on the
    diagonal and is at least as long as every run seen so far; the lengths in
    [j2len] are bounded by the runs of their row and of their column, and the
    diagonal entry is the run itself. *)
Definition diag_inv (i : nat) (st : gmap nat nat * (nat * nat * nat)) : Prop :=
  st.2.1.1 = st.2.1.2
  ∧ (∀ j, j ≤ i → run_before j ≤ st.2.2)
  ∧ (∀ j v, st.1 !! j = Some v → v ≤ run_before (S j) ∧ v ≤ run_before i)
  ∧ Difflib.j2len_get_pred st.1 i = run_before i.

End Invariants.

(** ** [main] and the statements the linker may add *)

(** What a run of [main] leaves on disk: nothing when the graph file is
    missing, the serialised graph after [save_enriched_kg], nothing when
    [enrich_with_cards] raises before the save. *)
Inductive run_result :=
| GraphFileMissing
| Saved (output : graph)
| Crashed (e : exn).

(** [main]; [kg_file] and [cards_file] are the parsed contents of the two
    input files, [None] when the file does not exist. *)
Definition main {runtime : PyRuntime} (kg_file : option graph)
    (cards_file : option json) : run_result :=
  match kg_file with
  | None => GraphFileMissing
  | Some kg =>
      let entity_index := entity_index_of kg in
      match cards_file with
      | Some cards_data =>
          match enrich_with_cards entity_index (Some cards_data) kg with
          | (Ok _, enriched) => Saved enriched
          | (Raise e, _) => Crashed e
          end
      | None => Saved kg
      end
  end.

(** The predicates the linker puts on a card node. *)
Definition card_predicates : list node :=
  [RDF_type; RDFS_label; SCHEMA "additionalType"; SCHEMA "additionalProperty";
   SCHEMA "isPartOf"].

(** A statement of the linker in the graph [enriched]: the relation from an
    indexed entity to a card node, or a statement about a card node that
    [enriched] relates to an indexed entity. *)
Definition linker_statement (entity_index : pydict node) (enriched : graph)
    (t : triple) : Prop :=
  ∃ key entity_uri name,
    (key, entity_uri) ∈ dict_items entity_index
    ∧ (entity_uri, SCHEMA "subjectOf", METW name) ∈ enriched
    ∧ (t = (entity_uri, SCHEMA "subjectOf", METW name)
       ∨ (t.1.1 = METW name ∧ t.1.2 ∈ card_predicates)).

(** The two keys one row of the query writes. *)
Definition row_keys {runtime : PyRuntime} (row : node * node) : list string :=
  [str_lower (node_str row.2);
   PyStr.replace_space "" (str_lower (node_str row.2))].

(** A computation that adds at most [n] statements. *)
Definition adds_at_most {A} (n : nat) (m : M A) : Prop :=
  ∀ g, size (m g).2 ≤ size g + n.

(** A computation that adds statements of one kind only. *)
Definition adds_only {A} (P : triple → Prop) (m : M A) : Prop :=
  ∀ g t, t ∈ (m g).2 → t ∈ g ∨ P t.

(** The card, the name and the entity for which the loop body reaches
    [linked_count += 1]. *)
Definition linked_entity {runtime : PyRuntime} (entity_index : pydict node)
    (card : json) : option (pydict json * string * node) :=
  match card with
  | JObj d =>
      match resolve_card_name (dict_get_default "name" (JStr "") d) with
      | JStr card_name =>
          if bool_decide (card_name ≠ "") then
            match find_best_match entity_index card_name default_threshold with
            | Some entity_uri =>
                if node_truthy entity_uri then Some (d, card_name, entity_uri) else None
            | None => None
            end
          else None
      | _ => None
      end
  | _ => None
  end.

(** The statements of all the cards the loop links. *)
Definition linked_statements {runtime : PyRuntime} (entity_index : pydict node)
    (all_cards : list json) : graph :=
  ⋃ ((λ l : pydict json * string * node, list_to_set (card_statements l.1.1 l.1.2 l.2))
       <$> omap (linked_entity entity_index) all_cards).

(** A card the loop body runs through without an exception: a mapping whose
    name resolves to a string or to something false, with a ['type'] that
    rdflib turns into a literal. *)
Definition plain_card {runtime : PyRuntime} (card : json) : Prop :=
  ∃ d, card = JObj d
       ∧ (truthy (resolve_card_name (dict_get_default "name" (JStr "") d)) = false
          ∨ ∃ card_name, resolve_card_name (dict_get_default "name" (JStr "") d)
                         = JStr card_name)
       ∧ (∀ v, dict_get "type" d = Some v → ∃ lit, rdflib_Literal_en v = Ok lit).

(** A card at which the loop stops with [AttributeError]: not a mapping, or a
    mapping whose name resolves to a true value that is not a string. *)
Definition broken_card (card : json) : Prop :=
  match card with
  | JObj d =>
      truthy (resolve_card_name (dict_get_default "name" (JStr "") d)) = true
      ∧ ∀ s, resolve_card_name (dict_get_default "name" (JStr "") d) ≠ JStr s
  | _ => True
  end.

(** ** More invariants of [find_longest_match] and [get_matching_blocks] *)

(** The [b] side of [in_range]: the keys of [j2len] lie in [blo..bhi-1], a
    length recorded at [j] fits between [blo] and [j], and so does the best
    block. *)
Definition in_range_b (blo bhi : nat) (st : gmap nat nat * (nat * nat * nat)) : Prop :=
  (∀ j v, st.1 !! j = Some v → blo ≤ j ∧ v ≤ j + 1 - blo)
  ∧ blo ≤ st.2.1.2
  ∧ (st.2.2 = 0 ∧ st.2.1.2 = blo ∨ st.2.1.2 + st.2.2 ≤ bhi).

(** The number of matched elements in a list of blocks, and the room the
    queued ranges leave on each side. *)
Definition matched (blocks : list (nat * nat * nat)) : nat :=
  sum_list (map (λ t : nat * nat * nat, t.2) blocks).

Definition room_a (queue : list (nat * nat * nat * nat)) : nat :=
  sum_list ((λ r : nat * nat * nat * nat, r.1.1.2 - r.1.1.1) <$> queue).

Definition room_b (queue : list (nat * nat * nat * nat)) : nat :=
  sum_list ((λ r : nat * nat * nat * nat, r.2 - r.1.2) <$> queue).

(** * Properties *)

(** ** Loops over [range] and over a row of [b2j] *)

Lemma foldl_seq_invariant {St : Type} (P : nat → St → Prop) (f : St → nat → St) :
  ∀ n lo s0,
    P lo s0 →
    (∀ i s, lo ≤ i < lo + n → P i s → P (i + 1) (f s i)) →
    P (lo + n) (foldl f s0 (seq lo n)).
Proof.
  induction n as [|n IH]; intros lo s0 H0 Hstep; simpl.
  - by rewrite Nat.add_0_r.
  - replace (lo + S n) with (S lo + n) by lia. apply IH.
    + replace (S lo) with (lo + 1) by lia. apply Hstep; [lia | done].
    + intros i s Hi. apply Hstep. lia.
Qed.

Section DifflibFacts.
Context {A : Type} `{EqDecision A}.
Implicit Types a b : list A.
Implicit Types st : gmap nat nat * (nat * nat * nat).

Lemma scan_row_invariant (P : gmap nat nat * (nat * nat * nat) → Prop)
    i blo bhi j2len :
  ∀ js st,
    P st →
    (∀ j newj2len besti bestj bestsize,
        j ∈ js → blo ≤ j < bhi →
        P (newj2len, (besti, bestj, bestsize)) →
        let k := Difflib.j2len_get_pred j2len j + 1 in
        P (<[j := k]> newj2len,
           if bool_decide (bestsize < k) then (i + 1 - k, j + 1 - k, k)
           else (besti, bestj, bestsize))) →
    P (Difflib.scan_row i blo bhi j2len js st).
Proof.
  induction js as [|j js IH]; intros st Hst Hstep; simpl; [done|].
  repeat case_bool_decide.
  - apply IH; [done|]. intros. apply Hstep; [by right|done..].
  - done.
  - destruct st as [newj2len [[besti bestj] bestsize]].
    apply IH.
    + apply Hstep; [by left|lia|done].
    + intros. apply Hstep; [by right|done..].
Qed.

Lemma scan_row_app i blo bhi j2len js1 js2 st :
  (∀ j, j ∈ js1 → blo ≤ j < bhi) →
  Difflib.scan_row i blo bhi j2len (js1 ++ js2) st
  = Difflib.scan_row i blo bhi j2len js2 (Difflib.scan_row i blo bhi j2len js1 st).
Proof.
  revert st. induction js1 as [|j js1 IH]; intros st Hin; simpl; [done|].
  assert (blo ≤ j < bhi) by (apply Hin; by left).
  rewrite !bool_decide_eq_false_2 by lia.
  destruct st as [newj2len [[besti bestj] bestsize]].
  apply IH. intros. apply Hin. by right.
Qed.

(** *** The block returned by [find_longest_match] lies in the range *)

Lemma j2len_get_pred_le (j2len : gmap nat nat) j n :
  (∀ j' v, j2len !! j' = Some v → v ≤ n) → Difflib.j2len_get_pred j2len j ≤ n.
Proof.
  intros Hle. destruct j as [|j]; simpl; [lia|].
  destruct (j2len !! j) as [v|] eqn:E; simpl; [by eapply Hle | lia].
Qed.

Lemma row_step_in_range a b alo blo bhi i st :
  alo ≤ i → in_range alo i st → in_range alo (i + 1) (Difflib.row_step a b blo bhi st i).
Proof.
  intros Hi (Hlen & Hlo & Hhi). destruct st as [j2len [[besti bestj] bestsize]].
  simpl in *. unfold Difflib.row_step.
  apply (scan_row_invariant (in_range alo (i + 1))).
  - split_and!; simpl; [|lia..]. intros j v. by rewrite lookup_empty.
  - intros j newj2len bi bj bs _ _ (Hlen' & Hlo' & Hhi'). simpl in *.
    pose proof (j2len_get_pred_le j2len j (i - alo) Hlen) as Hk.
    split_and!.
    + intros j' v. simpl. rewrite lookup_insert. case_decide; naive_solver lia.
    + case_bool_decide; simpl; lia.
    + case_bool_decide; simpl; lia.
Qed.

Lemma extend_left_bounds a b alo blo :
  ∀ besti bestj bestsize,
    alo ≤ besti →
    let r := Difflib.extend_left a b alo blo besti bestj bestsize in
    alo ≤ r.1.1 ∧ r.1.1 + r.2 = besti + bestsize ∧ bestsize ≤ r.2.
Proof.
  induction besti as [|i' IH]; intros bestj bestsize Hlo; simpl; [lia|].
  destruct bestj as [|j']; simpl; [lia|].
  destruct (_ && _) eqn:E; simpl; [|lia].
  apply andb_prop in E as [E _]. apply andb_prop in E as [E _].
  apply bool_decide_eq_true in E.
  specialize (IH j' (S bestsize)). simpl in IH. lia.
Qed.

Lemma extend_right_bounds a b ahi bhi besti bestj :
  ∀ n bestsize,
    besti + bestsize ≤ ahi →
    let k := Difflib.extend_right a b n ahi bhi besti bestj bestsize in
    bestsize ≤ k ∧ besti + k ≤ ahi.
Proof.
  induction n as [|n IH]; intros bestsize Hhi; simpl; [lia|].
  destruct (_ && _) eqn:E; simpl; [|lia].
  apply andb_prop in E as [E _]. apply andb_prop in E as [E _].
  apply bool_decide_eq_true in E.
  specialize (IH (S bestsize)). simpl in IH. lia.
Qed.

Lemma find_longest_match_bounds a b alo ahi blo bhi i j k :
  Difflib.find_longest_match a b alo ahi blo bhi = (i, j, k) →
  alo ≤ i ∧ (k = 0 ∨ i + k ≤ ahi).
Proof.
  unfold Difflib.find_longest_match.
  destruct (decide (alo ≤ ahi)) as [Hle|Hgt].
  - pose proof (foldl_seq_invariant (in_range alo) (Difflib.row_step a b blo bhi)
                  (ahi - alo) alo (∅, (alo, blo, 0))) as Hinv.
    destruct (foldl _ _ _) as [j2len [[besti bestj] bestsize]].
    destruct Hinv as (_ & Hlo & Hhi).
    { split_and!; simpl; [|lia..]. intros ??. by rewrite lookup_empty. }
    { intros. apply row_step_in_range; [lia|done]. }
    simpl in *.
    pose proof (extend_left_bounds a b alo blo besti bestj bestsize Hlo) as Hl.
    destruct (Difflib.extend_left _ _ _ _ _ _ _) as [[i' j'] k']. simpl in Hl.
    intros [= <- <- <-].
    pose proof (extend_right_bounds a b ahi bhi i' j' (ahi - (i' + k')) k') as Hr.
    simpl in Hr. lia.
  - replace (ahi - alo) with 0 by lia. simpl.
    assert (Difflib.extend_left a b alo blo alo blo 0 = (alo, blo, 0)) as ->.
    { destruct alo as [|alo'], blo as [|blo']; simpl; try done.
      rewrite bool_decide_eq_false_2 by lia. done. }
    replace (ahi - (alo + 0)) with 0 by lia. simpl.
    intros [= <- <- <-]. lia.
Qed.

(** *** [get_matching_blocks] terminates within its bound *)

Lemma queue_measure_cons alo ahi blo bhi queue :
  queue_measure ((alo, ahi, blo, bhi) :: queue)
  = 2 * (ahi - alo) + 1 + queue_measure queue.
Proof. reflexivity. Qed.

Lemma blocks_loop_total a b :
  ∀ fuel queue matching_blocks,
    queue_measure queue ≤ fuel →
    is_Some (Difflib.blocks_loop a b fuel queue matching_blocks).
Proof.
  induction fuel as [|fuel IH]; intros queue acc Hm;
    (destruct queue as [|[[[alo ahi] blo] bhi] queue]; simpl; [by eexists|]);
    rewrite queue_measure_cons in Hm; [lia|].
  destruct (Difflib.find_longest_match a b alo ahi blo bhi) as [[i j] k] eqn:E.
  apply find_longest_match_bounds in E as [Hlo Hhi].
  case_bool_decide as Hk.
  - apply IH. lia.
  - destruct Hhi as [?|Hhi]; [done|].
    apply IH.
    repeat (destruct (_ && _)); rewrite ?queue_measure_cons; lia.
Qed.

Lemma get_matching_blocks_total a b : is_Some (Difflib.get_matching_blocks a b).
Proof.
  unfold Difflib.get_matching_blocks. apply fmap_is_Some, blocks_loop_total.
  rewrite queue_measure_cons. unfold queue_measure. simpl. lia.
Qed.

Lemma ratio_opt_total a b : is_Some (Difflib.ratio_opt a b).
Proof. apply fmap_is_Some, get_matching_blocks_total. Qed.

End DifflibFacts.

(** *** A sequence matched against itself *)

Section SelfMatch.
Context {A : Type} `{EqDecision A}.
Variable s : list A.

Lemma positions_split i x :
  s !! i = Some x →
  Difflib.positions s x
  = filter (λ j, s !! j = Some x) (seq 0 i)
    ++ i :: filter (λ j, s !! j = Some x) (seq (S i) (length s - S i)).
Proof.
  intros Hi. pose proof (lookup_lt_Some _ _ _ Hi) as Hlt.
  unfold Difflib.positions.
  replace (length s) with (i + S (length s - S i)) at 1 by lia.
  rewrite seq_app, filter_app. simpl. by rewrite filter_cons_True.
Qed.

Lemma run_before_kept i : kept s i = true → run_before s (S i) = S (run_before s i).
Proof. intros Hk. simpl. by rewrite Hk. Qed.

Lemma run_before_dropped i : kept s i = false → run_before s (S i) = 0.
Proof. intros Hk. simpl. by rewrite Hk. Qed.

Lemma kept_lookup i x :
  s !! i = Some x → Difflib.popular s x = false → kept s i = true.
Proof. intros Hi Hp. unfold kept. by rewrite Hi, Hp. Qed.

Lemma j2len_get_pred_diag (j2len : gmap nat nat) i j :
  (∀ j' v, j2len !! j' = Some v → v ≤ run_before s (S j') ∧ v ≤ run_before s i) →
  Difflib.j2len_get_pred j2len j ≤ run_before s j
  ∧ Difflib.j2len_get_pred j2len j ≤ run_before s i.
Proof.
  intros Hb. destruct j as [|j]; simpl; [lia|].
  destruct (j2len !! j) as [v|] eqn:E; simpl; [|lia].
  destruct (Hb j v E). simpl in *. lia.
Qed.

Lemma row_step_diag i st :
  i < length s →
  diag_inv s i st →
  diag_inv s (i + 1) (Difflib.row_step s s 0 (length s) st i).
Proof.
  intros Hi (Hdiag & Hbest & Hlen & Hpred).
  destruct st as [j2len [[besti bestj] bestsize]]. cbn [fst snd] in *.
  replace (i + 1) with (S i) by lia.
  destruct (lookup_lt_is_Some_2 s i Hi) as [x Hx].
  unfold Difflib.row_step. rewrite Hx. unfold Difflib.b2j_get.
  destruct (Difflib.popular s x) eqn:Hpop.
  - (* the row is skipped *)
    assert (run_before s (S i) = 0) as Hrun.
    { apply run_before_dropped. unfold kept. by rewrite Hx, Hpop. }
    simpl Difflib.scan_row. split_and!; simpl.
    + done.
    + intros j Hj. destruct (decide (j = S i)) as [->|]; [lia|]. apply Hbest. lia.
    + intros j v. by rewrite lookup_empty.
    + by rewrite lookup_empty.
  - pose proof (kept_lookup i x Hx Hpop) as Hkept.
    pose proof (run_before_kept i Hkept) as Hrun.
    rewrite (positions_split i x Hx).
    rewrite scan_row_app; last first.
    { intros j [_ Hj%elem_of_seq]%list_elem_of_filter. lia. }
    (* columns before the diagonal *)
    assert (∃ nj1,
      Difflib.scan_row i 0 (length s) j2len
        (filter (λ j, s !! j = Some x) (seq 0 i)) (∅, (besti, bestj, bestsize))
      = (nj1, (besti, bestj, bestsize))
      ∧ ∀ j v, nj1 !! j = Some v →
               j < i ∧ v ≤ run_before s (S j) ∧ v ≤ run_before s (S i))
      as (nj1 & -> & Hnj1).
    { apply (scan_row_invariant
        (λ st', ∃ nj1, st' = (nj1, (besti, bestj, bestsize))
                ∧ ∀ j v, nj1 !! j = Some v →
                         j < i ∧ v ≤ run_before s (S j) ∧ v ≤ run_before s (S i))).
      - eexists. split; [done|]. intros j v. by rewrite lookup_empty.
      - intros j nj bi bj bs [Hjx Hj%elem_of_seq]%list_elem_of_filter _
          (nj' & [= -> -> -> ->] & Hnj).
        destruct (j2len_get_pred_diag j2len i j Hlen) as [Hk1 Hk2].
        pose proof (run_before_kept j (kept_lookup j x Hjx Hpop)) as Hrunj.
        pose proof (Hbest (S j)).
        cbn zeta. rewrite bool_decide_eq_false_2 by lia.
        eexists. split; [done|].
        intros j' v. rewrite lookup_insert. case_decide; [|by auto].
        intros [= <-]. subst j'. lia. }
    (* the diagonal *)
    simpl Difflib.scan_row.
    rewrite (bool_decide_eq_false_2 (length s ≤ i)) by lia.
    rewrite Hpred.
    set (best2 := if bool_decide (bestsize < run_before s i + 1)
                  then (i + 1 - (run_before s i + 1), i + 1 - (run_before s i + 1),
                        run_before s i + 1)
                  else (besti, bestj, bestsize)).
    assert (best2.1.1 = best2.1.2 ∧ bestsize ≤ best2.2 ∧ run_before s (S i) ≤ best2.2)
      as (Hd2 & Hmono & Hge).
    { unfold best2. case_bool_decide; cbn [fst snd]; lia. }
    (* columns after the diagonal *)
    assert (∃ nj3,
      Difflib.scan_row i 0 (length s) j2len
        (filter (λ j, s !! j = Some x) (seq (S i) (length s - S i)))
        (<[i := run_before s i + 1]> nj1, best2)
      = (nj3, best2)
      ∧ nj3 !! i = Some (run_before s (S i))
      ∧ ∀ j v, nj3 !! j = Some v →
               v ≤ run_before s (S j) ∧ v ≤ run_before s (S i))
      as (nj3 & -> & Hi3 & Hnj3).
    { apply (scan_row_invariant
        (λ st', ∃ nj3, st' = (nj3, best2)
                ∧ nj3 !! i = Some (run_before s (S i))
                ∧ ∀ j v, nj3 !! j = Some v →
                         v ≤ run_before s (S j) ∧ v ≤ run_before s (S i))).
      - eexists. split_and!; [done|..].
        + rewrite lookup_insert_eq. f_equal. lia.
        + intros j v. rewrite lookup_insert. case_decide.
          * intros [= <-]. subst j. lia.
          * intros Hv. destruct (Hnj1 j v Hv). lia.
      - intros j nj bi bj bs [Hjx Hj%elem_of_seq]%list_elem_of_filter _
          (nj' & [= -> Heq] & Hi' & Hnj).
        destruct (j2len_get_pred_diag j2len i j Hlen) as [Hk1 Hk2].
        pose proof (run_before_kept j (kept_lookup j x Hjx Hpop)) as Hrunj.
        assert (bs = best2.2) as Hbs by (by rewrite <- Heq).
        cbn zeta. rewrite bool_decide_eq_false_2 by lia.
        eexists. split_and!; [by rewrite Heq|..].
        + rewrite lookup_insert_ne by lia. done.
        + intros j' v. rewrite lookup_insert. case_decide; [|by auto].
          intros [= <-]. subst j'. lia. }
    split_and!; cbn [fst snd].
    + done.
    + intros j Hj. destruct (decide (j = S i)) as [->|]; [done|].
      specialize (Hbest j). lia.
    + done.
    + simpl. by rewrite Hi3.
Qed.

Lemma extend_left_diag :
  ∀ i k, Difflib.extend_left s s 0 0 i i k = (0, 0, k + i).
Proof.
  induction i as [|i IH]; intros k; simpl.
  - f_equal. lia.
  - rewrite !bool_decide_eq_true_2 by (done || lia). simpl.
    rewrite IH. f_equal. lia.
Qed.

Lemma extend_right_diag :
  ∀ n k, k + n = length s →
         Difflib.extend_right s s n (length s) (length s) 0 0 k = length s.
Proof.
  induction n as [|n IH]; intros k Hk; simpl; [lia|].
  rewrite !bool_decide_eq_true_2 by (done || lia). simpl.
  apply IH. lia.
Qed.

Lemma find_longest_match_self :
  Difflib.find_longest_match s s 0 (length s) 0 (length s) = (0, 0, length s).
Proof.
  unfold Difflib.find_longest_match. rewrite Nat.sub_0_r.
  pose proof (foldl_seq_invariant
    (λ i st, i ≤ length s → diag_inv s i st ∧ in_range 0 i st)
    (Difflib.row_step s s 0 (length s)) (length s) 0 (∅, (0, 0, 0))) as Hinv.
  destruct (foldl _ _ _) as [j2len [[besti bestj] bestsize]].
  destruct Hinv as [(Hdiag & _) (_ & _ & Hhi)]; [| |done|].
  { intros _. split; split_and!; simpl; try done; try lia.
    intros j Hj. by replace j with 0 by lia. }
  { intros i st Hi IH Hle. destruct IH as [IH1 IH2]; [lia|]. split.
    - apply row_step_diag; [lia|done].
    - apply row_step_in_range; [lia|done]. }
  simpl in Hdiag, Hhi. subst bestj.
  rewrite extend_left_diag. f_equal. apply extend_right_diag. lia.
Qed.

Lemma blocks_loop_nil fuel acc : Difflib.blocks_loop s s fuel [] acc = Some acc.
Proof. by destruct fuel. Qed.

Lemma ratio_opt_self :
  ∃ r, Difflib.ratio_opt s s = Some r ∧ (r == 1)%Q.
Proof.
  unfold Difflib.ratio_opt, Difflib.get_matching_blocks.
  cbn [Difflib.blocks_loop Nat.mul Nat.add].
  replace (length s + (length s + 0) + 1) with (S (length s + length s)) by lia.
  cbn [Difflib.blocks_loop]. rewrite find_longest_match_self.
  case_bool_decide as Hn.
  - rewrite blocks_loop_nil. eexists. split; [reflexivity|]. simpl.
    unfold Difflib._calculate_ratio. rewrite Hn.
    rewrite bool_decide_eq_true_2 by done. reflexivity.
  - rewrite !bool_decide_eq_false_2 by lia. cbn [andb app].
    rewrite blocks_loop_nil.
    eexists. split; [reflexivity|].
    unfold Difflib.collapse. simpl.
    rewrite bool_decide_eq_false_2 by done. simpl.
    unfold Difflib._calculate_ratio.
    rewrite bool_decide_eq_false_2 by lia.
    unfold Qeq. simpl. rewrite !Nat.add_0_r.
    rewrite Z.mul_1_r, Z.mul_1_l.
    rewrite <- (positive_nat_Z (Pos.of_nat _)), Nat2Pos.id by lia.
    done.
Qed.

End SelfMatch.

Lemma SequenceMatcher_ratio_self (s : string) :
  (SequenceMatcher_ratio s s == 1)%Q.
Proof.
  unfold SequenceMatcher_ratio.
  destruct (ratio_opt_self (PyStr.chars s)) as (r & -> & Hr). done.
Qed.


(** ** Strings and dictionaries *)

Section PyDictFacts.
Context {V : Type}.
Implicit Types d : pydict V.

Lemma dict_get_elem_of k v d : dict_get k d = Some v → (k, v) ∈ dict_items d.
Proof.
  unfold dict_items. induction d as [|[k' v'] d IH]; simpl; [done|].
  case_decide as Hk.
  - intros [= ->]. subst. by left.
  - intros Hget. right. by apply IH.
Qed.

Lemma dict_get_set_eq k v d : dict_get k (dict_set k v d) = Some v.
Proof.
  induction d as [|[k' v'] d IH]; simpl.
  - by rewrite decide_True.
  - case_decide; simpl; [by rewrite decide_True | by rewrite decide_False].
Qed.

Lemma dict_get_set_ne k k' v d :
  k ≠ k' → dict_get k' (dict_set k v d) = dict_get k' d.
Proof.
  intros Hne. induction d as [|[k0 v0] d IH]; simpl.
  - by rewrite decide_False.
  - case_decide; simpl.
    + subst k0. by rewrite !decide_False.
    + case_decide; [done|apply IH].
Qed.

Lemma dict_get_set k k' v d :
  dict_get k' (dict_set k v d) = if decide (k = k') then Some v else dict_get k' d.
Proof.
  case_decide as Hk; [subst; apply dict_get_set_eq | by apply dict_get_set_ne].
Qed.

Lemma dict_set_keys_mono k k' v d :
  is_Some (dict_get k' d) → is_Some (dict_get k' (dict_set k v d)).
Proof. rewrite dict_get_set. case_decide; [by eexists | done]. Qed.

Lemma dict_set_wf k v d : dict_wf d → dict_wf (dict_set k v d).
Proof.
  unfold dict_wf. induction d as [|[k' v'] d IH]; simpl.
  - intros _. apply NoDup_singleton.
  - rewrite !NoDup_cons. intros [Hnotin Hnd]. case_decide as Hk; simpl.
    + subst k'. rewrite NoDup_cons. done.
    + rewrite NoDup_cons. split; [|by apply IH].
      intros Hin. apply Hnotin. clear -Hin Hk.
      induction d as [|[k0 v0] d IH]; simpl in *; [|].
      * apply list_elem_of_singleton in Hin. done.
      * destruct (decide (k0 = k)) as [->|]; simpl in *.
        -- apply elem_of_cons in Hin as [->|Hin]; [done|]. by right.
        -- apply elem_of_cons in Hin as [->|Hin]; [by left|]. right. by apply IH.
Qed.

End PyDictFacts.

(** ** The matcher *)

Lemma Qlt_bool_iff (x y : Q) : Qlt_bool x y = true ↔ (x < y)%Q.
Proof.
  unfold Qlt_bool. rewrite negb_true_iff, <- not_true_iff_false, Qle_bool_iff.
  split; [apply Qnot_le_lt | apply Qlt_not_le].
Qed.

Section MatcherFacts.
Context {runtime : PyRuntime}.
Variable score_method : string → string → Q.
Implicit Types entity_index : pydict node.

(** When the step replaces the best match. *)
Lemma fuzzy_step_replaces card_name threshold best_score best_match entity_name entity_uri :
  (best_score < score_method card_name entity_name)%Q →
  (threshold <= score_method card_name entity_name)%Q →
  fuzzy_step score_method card_name threshold (best_score, best_match)
    (entity_name, entity_uri)
  = (score_method card_name entity_name, Some entity_uri).
Proof.
  intros H1%Qlt_bool_iff H2%Qle_bool_iff. simpl. by rewrite H1, H2.
Qed.

Lemma fuzzy_step_keeps card_name threshold best_score best_match entity_name entity_uri :
  ¬ ((best_score < score_method card_name entity_name)%Q
     ∧ (threshold <= score_method card_name entity_name)%Q) →
  fuzzy_step score_method card_name threshold (best_score, best_match)
    (entity_name, entity_uri)
  = (best_score, best_match).
Proof.
  intros Hd. simpl.
  destruct (Qlt_bool _ _) eqn:E1; [|done].
  destruct (Qle_bool _ _) eqn:E2; [|done].
  exfalso. apply Hd. by rewrite <- Qlt_bool_iff, <- Qle_bool_iff.
Qed.

(** Whatever the scan returns was put there by a key that cleared the
    threshold. *)
Lemma fuzzy_scan_threshold card_name threshold items :
  ∀ st e,
    (foldl (fuzzy_step score_method card_name threshold) st items).2 = Some e →
    st.2 = Some e
    ∨ ∃ entity_name, (entity_name, e) ∈ items
                     ∧ (threshold <= score_method card_name entity_name)%Q.
Proof.
  induction items as [|[k v] items IH]; intros [bs bm] e Hfold; simpl in Hfold.
  - by left.
  - apply IH in Hfold as [Hst|(k' & Hin & Hle)].
    + destruct (Qlt_bool _ _ && Qle_bool _ _) eqn:E; simpl in Hst.
      * injection Hst as ->. right. exists k. split; [by left|].
        apply andb_prop in E as [_ E]. by apply Qle_bool_iff.
      * by left.
    + right. exists k'. split; [by right|done].
Qed.

Lemma fuzzy_match_threshold entity_index card_name threshold e :
  fuzzy_match score_method entity_index card_name threshold = Some e →
  ∃ entity_name, (entity_name, e) ∈ dict_items entity_index
                 ∧ (threshold <= score_method card_name entity_name)%Q.
Proof.
  intros Hm. by apply fuzzy_scan_threshold in Hm as [?|?].
Qed.

(** A scan whose keys all score below [m] keeps the best score below [m]. *)
Lemma fuzzy_scan_below card_name threshold (m : Q) items :
  Forall (λ item, (score_method card_name item.1 < m)%Q) items →
  ∀ st, (st.1 < m)%Q →
        ((foldl (fuzzy_step score_method card_name threshold) st items).1 < m)%Q.
Proof.
  induction 1 as [|[k v] items Hk _ IH]; intros [bs bm] Hst; simpl; [done|].
  apply IH. by destruct (_ && _).
Qed.

(** A scan whose keys score at most the current best changes nothing. *)
Lemma fuzzy_scan_not_above card_name threshold items :
  ∀ st, Forall (λ item, (score_method card_name item.1 <= st.1)%Q) items →
        foldl (fuzzy_step score_method card_name threshold) st items = st.
Proof.
  induction items as [|[k v] items IH]; intros [bs bm] Hall; simpl; [done|].
  apply Forall_cons in Hall as [Hk Hall]. simpl in Hk.
  assert (Qlt_bool bs (score_method card_name k) = false) as ->.
  { apply not_true_iff_false. rewrite Qlt_bool_iff. by apply Qle_not_lt. }
  simpl. by apply IH.
Qed.

Lemma fuzzy_match_first_maximum entity_index card_name threshold before entity_name e after :
  dict_items entity_index = before ++ (entity_name, e) :: after →
  (0 < score_method card_name entity_name)%Q →
  (threshold <= score_method card_name entity_name)%Q →
  Forall (λ item, (score_method card_name item.1
                   < score_method card_name entity_name)%Q) before →
  Forall (λ item, (score_method card_name item.1
                   <= score_method card_name entity_name)%Q) after →
  fuzzy_match score_method entity_index card_name threshold = Some e.
Proof.
  intros Hitems Hpos Hthr Hbefore Hafter. unfold fuzzy_match.
  rewrite Hitems, foldl_app.
  pose proof (fuzzy_scan_below card_name threshold _ before Hbefore (0%Q, None) Hpos)
    as Hlt.
  destruct (foldl _ _ before) as [bs bm]. simpl in Hlt.
  cbn [foldl]. rewrite fuzzy_step_replaces by done.
  by rewrite fuzzy_scan_not_above.
Qed.

End MatcherFacts.




(** The log is ghost state: dropping it gives [find_best_match_by], and in
    the fuzzy phase every key of the index is scored, in order. *)
Lemma fuzzy_step_logged_erase {runtime : PyRuntime} (score_method : string → string → Q)
    (card_name : string) (threshold : Q) (items : list (string * node)) :
  ∀ st scored,
    foldl (fuzzy_step_logged score_method card_name threshold) (st, scored) items
    = (foldl (fuzzy_step score_method card_name threshold) st items,
       scored ++ items.*1).
Proof.
  induction items as [|[k v] items IH]; intros [bs bm] scored; simpl.
  - by rewrite app_nil_r.
  - destruct (_ && _); rewrite IH; by rewrite <- app_assoc.
Qed.

Lemma find_best_match_logged_result {runtime : PyRuntime} (score_method : string → string → Q)
    (entity_index : pydict node) (card_name : string) (threshold : Q) :
  (find_best_match_logged score_method entity_index card_name threshold).1
  = find_best_match_by score_method entity_index card_name threshold.
Proof.
  unfold find_best_match_logged, find_best_match_by, fuzzy_match.
  destruct (dict_get _ _); [done|].
  rewrite (fuzzy_step_logged_erase _ _ _ _ (0%Q, None) []).
  by destruct (foldl _ _ _).
Qed.

Lemma find_best_match_logged_fuzzy {runtime : PyRuntime} (score_method : string → string → Q)
    (entity_index : pydict node) (card_name : string) (threshold : Q) :
  dict_get (str_lower card_name) entity_index = None →
  (find_best_match_logged score_method entity_index card_name threshold).2
  = dict_keys entity_index.
Proof.
  intros Hget. unfold find_best_match_logged. rewrite Hget.
  rewrite (fuzzy_step_logged_erase _ _ _ _ (0%Q, None) []).
  by destruct (foldl _ _ _).
Qed.

(** C2 (priority property).  When the lowercased candidate is a key of the
    index, [find_best_match] returns the entity stored under that key at
    once: no key is handed to the scoring method, and the result is the same
    whatever the scoring method would answer, so no fuzzy candidate can win
    over the exact hit. *)
Theorem exact_key_wins {runtime : PyRuntime} (score_method : string → string → Q)
    (entity_index : pydict node) (card_name : string) (t : Q) (e : node) :
  dict_get (str_lower card_name) entity_index = Some e →
  find_best_match_logged score_method entity_index card_name t = (Some e, [])
  ∧ find_best_match_by score_method entity_index card_name t = Some e
  ∧ find_best_match entity_index card_name t = Some e.
Proof.
  intros Hget.
  unfold find_best_match, find_best_match_by, find_best_match_logged.
  by rewrite Hget.
Qed.

Lemma exact_key_wins_witness :
  find_best_match_logged (runtime := example_runtime) (λ _ _, 1%Q)
    [("aragorn", URIRef "e2"); ("gandalf", URIRef "e1")] "GANDALF" (17 # 20)
  = (Some (URIRef "e1"), [])
  ∧ find_best_match_by (runtime := example_runtime) (λ _ _, 1%Q)
      [("aragorn", URIRef "e2"); ("gandalf", URIRef "e1")] "GANDALF" (17 # 20)
    = Some (URIRef "e1")
  ∧ find_best_match (runtime := example_runtime)
      [("aragorn", URIRef "e2"); ("gandalf", URIRef "e1")] "GANDALF" (17 # 20)
    = Some (URIRef "e1").
Proof.
  apply (exact_key_wins (runtime := example_runtime) (λ _ _, 1%Q)
           [("aragorn", URIRef "e2"); ("gandalf", URIRef "e1")] "GANDALF").
  reflexivity.
Defined.

(** With threshold 0 two keys tie at the maximal score 0, which is at or
    above the threshold, and nothing is returned: the first of them does not
    win. *)
Lemma fuzzy_tie_at_zero_counterexample :
  dict_get (str_lower (PyRuntime := example_runtime) "xyz")
    [("abc", URIRef "e1"); ("def", URIRef "e2")] = None
  ∧ (similarity_score (runtime := example_runtime) "xyz" "abc" == 0)%Q
  ∧ (similarity_score (runtime := example_runtime) "xyz" "def" == 0)%Q
  ∧ (0 <= similarity_score (runtime := example_runtime) "xyz" "abc")%Q
  ∧ find_best_match (runtime := example_runtime)
      [("abc", URIRef "e1"); ("def", URIRef "e2")] "xyz" 0 = None.
Proof. by vm_compute. Qed.

(** C3 (tie-breaking), amended.  In the fuzzy phase a key replaces the current
    best exactly when its score is strictly greater than the current best
    score and at least the threshold.  Consequently, when the maximal score is
    strictly positive and at or above the threshold, the entity of the first
    key that attains it, in the iteration order of the index, is returned. *)
Theorem fuzzy_first_seen_wins {runtime : PyRuntime} (score_method : string → string → Q)
    (entity_index : pydict node) (card_name : string) (t : Q)
    (before : list (string * node)) (entity_name : string) (e : node)
    (after : list (string * node)) :
  dict_get (str_lower card_name) entity_index = None →
  dict_items entity_index = before ++ (entity_name, e) :: after →
  (0 < score_method card_name entity_name)%Q →
  (t <= score_method card_name entity_name)%Q →
  Forall (λ item, (score_method card_name item.1
                   < score_method card_name entity_name)%Q) before →
  Forall (λ item, (score_method card_name item.1
                   <= score_method card_name entity_name)%Q) after →
  (∀ best_score best_match k v,
      ((best_score < score_method card_name k)%Q ∧ (t <= score_method card_name k)%Q →
       fuzzy_step score_method card_name t (best_score, best_match) (k, v)
       = (score_method card_name k, Some v))
      ∧ (¬ ((best_score < score_method card_name k)%Q
            ∧ (t <= score_method card_name k)%Q) →
         fuzzy_step score_method card_name t (best_score, best_match) (k, v)
         = (best_score, best_match)))
  ∧ find_best_match_by score_method entity_index card_name t = Some e.
Proof.
  intros Hget Hitems Hpos Hthr Hbefore Hafter. split.
  - intros bs bm k v. split.
    + intros [??]. by apply fuzzy_step_replaces.
    + apply fuzzy_step_keeps.
  - unfold find_best_match_by. rewrite Hget.
    by eapply fuzzy_match_first_maximum.
Qed.

Lemma fuzzy_first_seen_wins_witness :
  find_best_match_by (runtime := example_runtime)
    (similarity_score (runtime := example_runtime))
    [("gandalg", URIRef "e2"); ("gandalf", URIRef "e1")] "Gandalx" (17 # 20)
  = Some (URIRef "e2").
Proof.
  apply (fuzzy_first_seen_wins (runtime := example_runtime)
           (similarity_score (runtime := example_runtime))
           [("gandalg", URIRef "e2"); ("gandalf", URIRef "e1")] "Gandalx" (17 # 20)
           [] "gandalg" (URIRef "e2") [("gandalf", URIRef "e1")]).
  - reflexivity.
  - reflexivity.
  - by vm_compute.
  - by vm_compute.
  - constructor.
  - repeat constructor. by vm_compute.
Defined.

(** ** The entity index *)

Lemma index_row_keys {runtime : PyRuntime} (index : pydict node) (row : node * node) k :
  is_Some (dict_get k index) → is_Some (dict_get k (index_row index row)).
Proof.
  intros Hk. destruct row as [entity_uri row_name]. simpl.
  by do 2 apply dict_set_keys_mono.
Qed.

Lemma build_keys_mono {runtime : PyRuntime} (rows : list (node * node)) :
  ∀ (index : pydict node) k,
    is_Some (dict_get k index) → is_Some (dict_get k (foldl index_row index rows)).
Proof.
  induction rows as [|row rows IH]; intros index k Hk; simpl; [done|].
  by apply IH, index_row_keys.
Qed.

(** Every row of the query puts its lowercased name and the space-free form
    of it in the index; nothing is filtered out. *)
Lemma build_entity_index_keys {runtime : PyRuntime} (results : list (node * node))
    entity_uri row_name :
  (entity_uri, row_name) ∈ results →
  is_Some (dict_get (str_lower (node_str row_name)) (_build_entity_index results))
  ∧ is_Some (dict_get (PyStr.replace_space "" (str_lower (node_str row_name)))
               (_build_entity_index results)).
Proof.
  intros (l1 & l2 & ->)%list_elem_of_split. unfold _build_entity_index.
  rewrite foldl_app. cbn [foldl].
  split; apply build_keys_mono; cbn [index_row].
  - rewrite dict_get_set. case_decide; [by eexists|].
    rewrite dict_get_set_eq. by eexists.
  - rewrite dict_get_set_eq. by eexists.
Qed.

(** The index is a dictionary: one entry per key. *)
Lemma build_entity_index_wf {runtime : PyRuntime} (results : list (node * node)) :
  dict_wf (_build_entity_index results).
Proof.
  unfold _build_entity_index.
  assert (∀ index : pydict node, dict_wf index → dict_wf (foldl index_row index results))
    as Hwf.
  { induction results as [|[e nm] results IH]; intros index Hi; simpl; [done|].
    apply IH. by do 2 apply dict_set_wf. }
  apply Hwf. apply NoDup_nil_2.
Qed.

(** ** Catalog extraction *)

Lemma append_cards_values (all_cards : list json) (cards : pydict json) :
  append_cards all_cards cards = all_cards ++ dict_values cards.
Proof.
  unfold append_cards, dict_items, dict_values. revert all_cards.
  induction cards as [|[k v] cards IH]; intros all_cards; simpl.
  - by rewrite app_nil_r.
  - rewrite IH. by rewrite <- app_assoc.
Qed.

Lemma collect_nested_policy (items : pydict json) :
  ∀ all_cards,
    collect_nested items all_cards
    = if forallb nested_ok (dict_values items)
      then Ok (all_cards ++ nested_collection items)
      else Raise AttributeError.
Proof.
  unfold nested_collection, dict_values.
  induction items as [|[set_key set_data] items IH]; intros all_cards; simpl.
  - by rewrite app_nil_r.
  - destruct set_data as [| | | | | |set_dict]; simpl; try apply IH.
    destruct (dict_get "cards" set_dict) as [[| | | | | |cards]|]; simpl;
      try done; try apply IH.
    rewrite IH, append_cards_values.
    destruct (forallb _ _); [|done]. by rewrite <- app_assoc.
Qed.

(** C6 (catalog shape), amended.  A payload that is not a mapping is used as
    it is.  For a mapping in which every top-level mapping that has a
    ['cards'] entry holds a mapping under it, the card objects under the
    ['cards'] sub-mapping of every top-level value are collected first; if
    and only if that collection is empty the value of the top-level ['cards']
    key is used, else that of ['data'], else the empty sequence.  When some
    top-level mapping holds under ['cards'] a value that is not a mapping,
    the extraction raises [AttributeError] and nothing is fallen back to. *)
Theorem extract_cards_policy (cards_data : json) :
  extract_cards cards_data
  = if payload_ok cards_data then Ok (extract_policy cards_data)
    else Raise AttributeError.
Proof.
  destruct cards_data as [| | | | | |d]; try done.
  unfold extract_cards, dict_items. rewrite collect_nested_policy.
  simpl. destruct (forallb _ _); [|done].
  by destruct (nested_collection d).
Qed.

(** ** Computations that only insert *)

Section InsertsOnly.
Context {A B : Type}.

Lemma inserts_only_ret (a : A) : inserts_only (ret a).
Proof. intros g. unfold ret. simpl. by rewrite union_empty_r_L. Qed.

Lemma inserts_only_raise (e : exn) : inserts_only (raise (A:=A) e).
Proof. intros g. unfold raise. simpl. by rewrite union_empty_r_L. Qed.

Lemma inserts_only_lift (r : result A) : inserts_only (lift r).
Proof. intros g. unfold lift. simpl. by rewrite union_empty_r_L. Qed.

Lemma inserts_only_bind (m : M A) (k : A → M B) :
  inserts_only m → (∀ a, inserts_only (k a)) → inserts_only (m ≫= k).
Proof.
  intros Hm Hk g. unfold mbind, M_bind, bind.
  rewrite (Hm g). destruct (m ∅) as [[a|e] W]; simpl.
  - rewrite (Hk a (g ∪ W)), (Hk a W). simpl.
    by rewrite (assoc_L (∪)).
  - done.
Qed.

End InsertsOnly.

Lemma inserts_only_graph_add (t : triple) : inserts_only (graph_add t).
Proof.
  intros g. unfold graph_add. simpl.
  by rewrite union_empty_r_L, (comm_L (∪)).
Qed.

Lemma inserts_only_extends {A} (m : M A) (g : graph) :
  inserts_only m → g ⊆ graph_after m g.
Proof.
  intros Hm. unfold graph_after. rewrite (Hm g). simpl. apply union_subseteq_l.
Qed.

Lemma inserts_only_idemp {A} (m : M A) (g : graph) :
  inserts_only m →
  graph_after m (graph_after m g) = graph_after m g
  ∧ outcome m (graph_after m g) = outcome m g.
Proof.
  intros Hm. unfold graph_after, outcome.
  rewrite (Hm (m g).2), (Hm g). simpl. split; [|done].
  by rewrite <- (assoc_L (∪)), (idemp_L (∪)).
Qed.

Create HintDb inserts.
#[local] Hint Resolve inserts_only_ret inserts_only_raise inserts_only_lift
  inserts_only_graph_add : inserts.

Section EnrichFacts.
Context {runtime : PyRuntime}.
Variable entity_index : pydict node.

Lemma inserts_only_link_card card card_name entity_uri :
  inserts_only (link_card card card_name entity_uri).
Proof.
  unfold link_card.
  repeat (apply inserts_only_bind; [|intros ?]); auto with inserts.
  - destruct (dict_get "type" card); [|auto with inserts].
    apply inserts_only_bind; auto with inserts.
  - destruct (dict_get "alignment" card); auto with inserts.
  - destruct (truthy _); auto with inserts.
Qed.

Lemma inserts_only_process_card card : inserts_only (process_card entity_index card).
Proof.
  unfold process_card. destruct card; auto with inserts.
  destruct (negb _); [auto with inserts|].
  destruct (resolve_card_name _); auto with inserts.
  destruct (find_best_match _ _ _) as [e|]; [|auto with inserts].
  destruct (node_truthy e); [|auto with inserts].
  apply inserts_only_bind; [apply inserts_only_link_card | auto with inserts].
Qed.

Lemma inserts_only_for_cards all_cards :
  ∀ linked_count, inserts_only (for_cards entity_index all_cards linked_count).
Proof.
  induction all_cards as [|card rest IH]; intros n; simpl; [auto with inserts|].
  apply inserts_only_bind; [apply inserts_only_process_card | intros ?; apply IH].
Qed.

Lemma inserts_only_enrich_cards_data cards_data :
  inserts_only (enrich_cards_data entity_index cards_data).
Proof.
  unfold enrich_cards_data.
  apply inserts_only_bind; [auto with inserts | intros all_cards].
  apply inserts_only_bind; [auto with inserts | intros n].
  case_bool_decide; [auto with inserts|].
  apply inserts_only_bind; [auto with inserts | intros cards].
  apply inserts_only_for_cards.
Qed.

Lemma inserts_only_enrich_with_cards cards_file :
  inserts_only (enrich_with_cards entity_index cards_file).
Proof.
  destruct cards_file; simpl; [apply inserts_only_enrich_cards_data | auto with inserts].
Qed.

(** C9 (insertion only).  For every index, graph and catalog payload (or
    missing catalog file), every statement of the graph before
    [enrich_with_cards] is in the graph after it, also when the run ends in an
    exception. *)
Theorem enrich_with_cards_preserves (cards_file : option json) (g : graph) :
  g ⊆ graph_after (enrich_with_cards entity_index cards_file) g.
Proof. apply inserts_only_extends, inserts_only_enrich_with_cards. Qed.

(** C10 (set semantics).  Adding a statement that is present changes nothing,
    so a second [enrich_with_cards] with the same catalog over the enriched
    graph leaves the graph, hence its number of triples, as the first run left
    it, and returns the same count. *)
Theorem enrich_with_cards_idempotent (cards_file : option json) (g : graph) :
  let enriched := graph_after (enrich_with_cards entity_index cards_file) g in
  (∀ t : triple, t ∈ enriched → graph_after (graph_add t) enriched = enriched)
  ∧ graph_after (enrich_with_cards entity_index cards_file) enriched = enriched
  ∧ size (graph_after (enrich_with_cards entity_index cards_file) enriched)
    = size enriched
  ∧ outcome (enrich_with_cards entity_index cards_file) enriched
    = outcome (enrich_with_cards entity_index cards_file) g.
Proof.
  intros enriched.
  destruct (inserts_only_idemp (enrich_with_cards entity_index cards_file) g
              (inserts_only_enrich_with_cards cards_file)) as [Hg Ho].
  fold enriched in Hg, Ho. split_and!.
  - intros t Ht. unfold graph_after, graph_add. simpl.
    apply subseteq_union_1_L. by apply singleton_subseteq_l.
  - done.
  - by rewrite Hg.
  - done.
Qed.

(** *** What one card does *)

Lemma card_uri_of_identifier (card : pydict json) (card_name : string) :
  card_uri_of card card_name = METW (card_identifier card card_name).
Proof.
  unfold card_uri_of, card_identifier, dict_get_default.
  destruct (dict_get "id" card); [done|]. by rewrite py_str_JStr.
Qed.

Lemma link_card_statements (card : pydict json) (card_name : string)
    (entity_uri : node) (g : graph) :
  (∀ v, dict_get "type" card = Some v → ∃ lit, rdflib_Literal_en v = Ok lit) →
  link_card card card_name entity_uri g
  = (Ok tt, g ∪ list_to_set (card_statements card card_name entity_uri)).
Proof.
  intros Htype. unfold link_card, card_statements, optional_statements.
  rewrite card_uri_of_identifier.
  unfold mbind, M_bind, bind, graph_add, lift, ret, dict_get_default.
  destruct (dict_get "type" card) as [v|] eqn:Ety.
  - destruct (Htype v eq_refl) as [lit ->].
    destruct (dict_get "alignment" card) as [al|];
      destruct (dict_get "set" card) as [card_set|]; simpl;
      try destruct (truthy card_set); simpl; f_equal;
      apply set_eq; intros t; set_unfold; tauto.
  - destruct (dict_get "alignment" card) as [al|];
      destruct (dict_get "set" card) as [card_set|]; simpl;
      try destruct (truthy card_set); simpl; f_equal;
      apply set_eq; intros t; set_unfold; tauto.
Qed.

Lemma process_card_skipped (d : pydict json) (g : graph) :
  truthy (resolve_card_name (dict_get_default "name" (JStr "") d)) = false →
  process_card entity_index (JObj d) g = (Ok false, g).
Proof. intros Hfalsy. unfold process_card. by rewrite Hfalsy. Qed.

Lemma process_card_linked (d : pydict json) (card_name : string)
    (entity_uri : node) (g : graph) :
  resolve_card_name (dict_get_default "name" (JStr "") d) = JStr card_name →
  card_name ≠ "" →
  find_best_match entity_index card_name default_threshold = Some entity_uri →
  node_truthy entity_uri = true →
  process_card entity_index (JObj d) g
  = (link_card d card_name entity_uri ≫= λ _, ret true) g.
Proof.
  intros Hname Hne Hmatch Htruthy. unfold process_card.
  rewrite Hname. simpl. rewrite bool_decide_eq_true_2 by done. simpl.
  by rewrite Hmatch, Htruthy.
Qed.

End EnrichFacts.

(** ** The linker *)

Section LinkerFacts.
Context {runtime : PyRuntime}.

(** The six predicates of the linker are pairwise different, so no statement
    is stated twice for one card. *)
Lemma card_statements_NoDup (card : pydict json) (card_name : string) (entity_uri : node) :
  NoDup (card_statements card card_name entity_uri).
Proof.
  apply (NoDup_fmap_1 (λ t : triple, t.1.2)).
  unfold card_statements, optional_statements.
  destruct (dict_get "type" card) as [v|]; [destruct (rdflib_Literal_en v)|];
    destruct (dict_get "alignment" card);
    (destruct (dict_get "set" card) as [card_set|]; [destruct (truthy card_set)|]);
    simpl; apply (bool_decide_unpack _); by vm_compute.
Qed.

Lemma elem_of_card_statements (card : pydict json) (card_name : string)
    (entity_uri : node) (t : triple) :
  let card_uri := METW (card_identifier card card_name) in
  t ∈ card_statements card card_name entity_uri
  ↔ t = (card_uri, RDF_type, SCHEMA "Thing")
    ∨ t = (card_uri, RDFS_label, Literal card_name (Some "en") None)
    ∨ t = (entity_uri, SCHEMA "subjectOf", card_uri)
    ∨ (∃ card_type lit, dict_get "type" card = Some card_type
         ∧ rdflib_Literal_en card_type = Ok lit
         ∧ t = (card_uri, SCHEMA "additionalType", lit))
    ∨ (∃ alignment, dict_get "alignment" card = Some alignment
         ∧ t = (card_uri, SCHEMA "additionalProperty",
                Literal ("alignment: " +:+ py_str alignment) (Some "en") None))
    ∨ (∃ card_set, dict_get "set" card = Some card_set ∧ truthy card_set = true
         ∧ t = (card_uri, SCHEMA "isPartOf",
                Literal ("METW Set: " +:+ py_str card_set) (Some "en") None)).
Proof.
  intros card_uri. unfold card_statements, optional_statements. fold card_uri.
  rewrite !elem_of_app, !elem_of_cons, elem_of_nil.
  assert (∀ P Q R : Prop, (Q ↔ R) → ((P ∨ Q) ↔ (P ∨ R))) as Hor by tauto.
  rewrite <- !(assoc (∨)).
  do 3 apply Hor.
  rewrite (left_id False (∨)).
  assert (∀ P P' Q Q' R R' : Prop,
             (P ↔ P') → (Q ↔ Q') → (R ↔ R') → (P ∨ Q ∨ R ↔ P' ∨ Q' ∨ R'))
    as Hor3 by tauto.
  apply Hor3.
  - destruct (dict_get "type" card) as [v|];
      [destruct (rdflib_Literal_en v) as [lit|] eqn:El|];
      rewrite ?elem_of_cons, elem_of_nil; split;
      try (by intros (? & ? & [=] & _)); try done.
    + intros [->|[]]. eauto.
    + intros (? & ? & [= <-] & Hl & ->). rewrite El in Hl. injection Hl as <-. by left.
    + intros (? & ? & [= <-] & Hl & _). congruence.
  - destruct (dict_get "alignment" card) as [al|];
      rewrite ?elem_of_cons, elem_of_nil; split;
      try (by intros [? [[=] _]]); try done.
    + intros [->|[]]. eauto.
    + intros (? & [= <-] & ->). by left.
  - destruct (dict_get "set" card) as [card_set|];
      [destruct (truthy card_set) eqn:Et|];
      rewrite ?elem_of_cons, elem_of_nil; split;
      try (by intros [? [[=] _]]); try done.
    + intros [->|[]]. eauto.
    + intros (? & [= <-] & _ & ->). by left.
    + intros (? & [= <-] & ? & _). congruence.
Qed.

(** Whatever the runtime makes of the ['type'] value, a link states the type
    assertion and the subject-of relation, and all it adds mentions the card
    node. *)
Lemma link_card_about_card (d : pydict json) (card_name : string)
    (entity_uri : node) (g : graph) :
  let card_uri := METW (card_identifier d card_name) in
  let after := graph_after (link_card d card_name entity_uri) g in
  (card_uri, RDF_type, SCHEMA "Thing") ∈ after
  ∧ (entity_uri, SCHEMA "subjectOf", card_uri) ∈ after
  ∧ ∀ t : triple, t ∈ after → t ∈ g ∨ t.1.1 = card_uri ∨ t.2 = card_uri.
Proof.
  intros card_uri after. unfold after, graph_after, link_card.
  rewrite card_uri_of_identifier. fold card_uri.
  unfold mbind, M_bind, bind, graph_add, lift, ret.
  destruct (dict_get "type" d) as [v|]; [destruct (rdflib_Literal_en v)|];
    destruct (dict_get "alignment" d); try destruct (truthy _); cbn [fst snd];
    (split_and!;
     [ rewrite !elem_of_union, !elem_of_singleton; tauto
     | rewrite !elem_of_union, !elem_of_singleton; tauto
     | intros t; rewrite !elem_of_union, !elem_of_singleton; intros Hin;
       repeat destruct Hin as [Hin|Hin]; subst;
       first [by left | by (right; left) | by (right; right)] ]).
Qed.

(** C4 (optional statements), amended.  For every matched card record the
    linker adds the type assertion, the label and the subject-of relation, and
    each optional statement once: the additional type, carrying the literal
    of the raw ['type'] value, whenever ['type'] is present; the additional
    property ["alignment: <value>"] whenever ['alignment'] is present (both
    also when the value is empty); the is-part-of ["METW Set: <value>"] only
    when ['set'] is present and not empty.  Nothing else is added.  (The
    record is one on which rdflib's [Literal] returns, as it does on every
    string.) *)
Theorem linker_optional_statements (entity_index : pydict node) (d : pydict json)
    (card_name : string) (entity_uri : node) (g : graph) :
  resolve_card_name (dict_get_default "name" (JStr "") d) = JStr card_name →
  card_name ≠ "" →
  find_best_match entity_index card_name default_threshold = Some entity_uri →
  node_truthy entity_uri = true →
  (∀ v, dict_get "type" d = Some v → ∃ lit, rdflib_Literal_en v = Ok lit) →
  let card_uri := METW (card_identifier d card_name) in
  process_card entity_index (JObj d) g
  = (Ok true, g ∪ list_to_set (card_statements d card_name entity_uri))
  ∧ NoDup (card_statements d card_name entity_uri)
  ∧ ∀ t : triple,
      t ∈ graph_after (process_card entity_index (JObj d)) g
      ↔ t ∈ g
        ∨ t = (card_uri, RDF_type, SCHEMA "Thing")
        ∨ t = (card_uri, RDFS_label, Literal card_name (Some "en") None)
        ∨ t = (entity_uri, SCHEMA "subjectOf", card_uri)
        ∨ (∃ card_type lit, dict_get "type" d = Some card_type
             ∧ rdflib_Literal_en card_type = Ok lit
             ∧ t = (card_uri, SCHEMA "additionalType", lit))
        ∨ (∃ alignment, dict_get "alignment" d = Some alignment
             ∧ t = (card_uri, SCHEMA "additionalProperty",
                    Literal ("alignment: " +:+ py_str alignment) (Some "en") None))
        ∨ (∃ card_set, dict_get "set" d = Some card_set ∧ truthy card_set = true
             ∧ t = (card_uri, SCHEMA "isPartOf",
                    Literal ("METW Set: " +:+ py_str card_set) (Some "en") None)).
Proof.
  intros Hname Hne Hmatch Htruthy Htype card_uri.
  assert (process_card entity_index (JObj d) g
          = (Ok true, g ∪ list_to_set (card_statements d card_name entity_uri)))
    as Hrun.
  { rewrite (process_card_linked entity_index d card_name entity_uri) by done.
    unfold mbind, M_bind, bind. by rewrite link_card_statements. }
  split_and!; [done | apply card_statements_NoDup |].
  intros t. unfold graph_after. rewrite Hrun. cbn [snd].
  rewrite elem_of_union, elem_of_list_to_set.
  by rewrite elem_of_card_statements.
Qed.

(** C8 (stable identifiers).  The node minted for a card is
    [METW[identifier]] where the identifier is computed from the card record
    alone: its ['id'] when present, else its resolved name with spaces replaced
    by underscores.  Two links of the same record, with any indices, graphs
    and matched entities, state their facts about the same node, and every
    statement a link adds has that node as subject or object. *)
Theorem card_identifier_stable (entity_index1 entity_index2 : pydict node)
    (d : pydict json) (card_name : string) (e1 e2 : node) (g1 g2 : graph) :
  resolve_card_name (dict_get_default "name" (JStr "") d) = JStr card_name →
  card_name ≠ "" →
  find_best_match entity_index1 card_name default_threshold = Some e1 →
  node_truthy e1 = true →
  find_best_match entity_index2 card_name default_threshold = Some e2 →
  node_truthy e2 = true →
  let card_uri :=
    METW (match dict_get "id" d with
          | Some card_id => py_str card_id
          | None => PyStr.replace_space "_" card_name
          end) in
  let after1 := graph_after (process_card entity_index1 (JObj d)) g1 in
  let after2 := graph_after (process_card entity_index2 (JObj d)) g2 in
  (card_uri, RDF_type, SCHEMA "Thing") ∈ after1
  ∧ (e1, SCHEMA "subjectOf", card_uri) ∈ after1
  ∧ (card_uri, RDF_type, SCHEMA "Thing") ∈ after2
  ∧ (e2, SCHEMA "subjectOf", card_uri) ∈ after2
  ∧ (∀ t : triple, t ∈ after1 → t ∈ g1 ∨ t.1.1 = card_uri ∨ t.2 = card_uri)
  ∧ (∀ t : triple, t ∈ after2 → t ∈ g2 ∨ t.1.1 = card_uri ∨ t.2 = card_uri).
Proof.
  intros Hname Hne Hm1 Ht1 Hm2 Ht2 card_uri after1 after2.
  assert (∀ entity_index e (g : graph),
    find_best_match entity_index card_name default_threshold = Some e →
    node_truthy e = true →
    let after := graph_after (process_card entity_index (JObj d)) g in
    (card_uri, RDF_type, SCHEMA "Thing") ∈ after
    ∧ (e, SCHEMA "subjectOf", card_uri) ∈ after
    ∧ ∀ t : triple, t ∈ after → t ∈ g ∨ t.1.1 = card_uri ∨ t.2 = card_uri)
    as Hone.
  { intros entity_index e g Hm Ht after. unfold after, graph_after.
    rewrite (process_card_linked entity_index d card_name e) by done.
    pose proof (link_card_about_card d card_name e g) as Hlink.
    unfold graph_after in Hlink. fold (card_identifier d card_name) in card_uri.
    unfold mbind, M_bind, bind.
    by destruct (link_card d card_name e g) as [[[]|?] g']. }
  destruct (Hone entity_index1 e1 g1 Hm1 Ht1) as (? & ? & ?).
  destruct (Hone entity_index2 e2 g2 Hm2 Ht2) as (? & ? & ?).
  done.
Qed.

(** C5 (empty names), amended.  [_build_entity_index] filters nothing: an
    entity whose name is the empty string puts the key [""] in the index.  A
    card whose resolved name is empty (or any other falsy value) is skipped:
    whatever the index holds, the loop body returns without linking and
    leaves the graph as it was. *)
Theorem empty_names (entity_index : pydict node) (results : list (node * node))
    (entity_uri row_name : node) (d : pydict json) (g : graph) :
  (entity_uri, row_name) ∈ results →
  node_str row_name = "" →
  truthy (resolve_card_name (dict_get_default "name" (JStr "") d)) = false →
  is_Some (dict_get "" (_build_entity_index results))
  ∧ process_card entity_index (JObj d) g = (Ok false, g).
Proof.
  intros Hin Hempty Hfalsy. split.
  - destruct (build_entity_index_keys results entity_uri row_name Hin) as [Hk _].
    by rewrite Hempty, str_lower_empty in Hk.
  - by apply process_card_skipped.
Qed.

(** C7 (multilingual names), amended.  When the ['name'] field is a mapping
    the resolved name is the value under ['en'] if that key is there, else
    the one under ['es'], else the one under ['fr'], else [""]: a value that
    is there but empty is not passed over.  Whenever the resolved name is not
    empty it is the name the priority order English, Spanish, French gives;
    it is [""] when each of the three is absent or empty.  A record whose
    resolved name is empty is skipped whatever the index holds: nothing is
    matched and the graph is left as it was. *)
Theorem multilingual_name (entity_index : pydict node) (d names : pydict json)
    (g : graph) :
  dict_get "name" d = Some (JObj names) →
  let card_name := resolve_card_name (dict_get_default "name" (JStr "") d) in
  card_name
  = match dict_get "en" names with
    | Some v => v
    | None =>
        match dict_get "es" names with
        | Some v => v
        | None =>
            match dict_get "fr" names with
            | Some v => v
            | None => JStr ""
            end
        end
    end
  ∧ (truthy card_name = true → card_name = name_by_priority names)
  ∧ ((∀ lang, lang ∈ ["en"; "es"; "fr"] →
              dict_get lang names = None ∨ dict_get lang names = Some (JStr "")) →
     card_name = JStr "" ∧ name_by_priority names = JStr "")
  ∧ (truthy card_name = false →
     process_card entity_index (JObj d) g = (Ok false, g)).
Proof.
  intros Hname card_name.
  assert (card_name
          = match dict_get "en" names with
            | Some v => v
            | None =>
                match dict_get "es" names with
                | Some v => v
                | None =>
                    match dict_get "fr" names with
                    | Some v => v
                    | None => JStr ""
                    end
                end
            end) as Hres.
  { unfold card_name, dict_get_default. rewrite Hname. simpl.
    unfold dict_get_default. by repeat destruct (dict_get _ names). }
  split_and!; [done| | |].
  - rewrite Hres. unfold name_by_priority, name_in.
    destruct (dict_get "en" names) as [v|]; [by intros ->|].
    destruct (dict_get "es" names) as [v|]; [by intros ->|].
    destruct (dict_get "fr" names) as [v|]; [by intros ->|done].
  - intros Hall. split.
    + rewrite Hres.
      destruct (Hall "en") as [->| ->]; [set_solver| |done].
      destruct (Hall "es") as [->| ->]; [set_solver| |done].
      destruct (Hall "fr") as [->| ->]; [set_solver|done..].
    + assert (∀ lang, lang ∈ ["en"; "es"; "fr"] → name_in lang names = None) as Hin.
      { intros lang Hl. unfold name_in. by destruct (Hall lang Hl) as [->| ->]. }
      unfold name_by_priority. by rewrite !Hin by set_solver.
  - intros Hfalsy. by apply process_card_skipped.
Qed.

End LinkerFacts.

(** ** The theorems on concrete catalogs *)

Lemma linker_optional_statements_witness :
  process_card (runtime := example_runtime) [("gandalf", URIRef "e1")]
    (JObj [("name", JStr "Gandalf"); ("type", JStr "Hero"); ("set", JStr "AS")]) ∅
  = (Ok true,
     ∅ ∪ list_to_set
           (card_statements (runtime := example_runtime)
              [("name", JStr "Gandalf"); ("type", JStr "Hero"); ("set", JStr "AS")]
              "Gandalf" (URIRef "e1"))).
Proof.
  refine (proj1 (linker_optional_statements (runtime := example_runtime)
                   [("gandalf", URIRef "e1")]
                   [("name", JStr "Gandalf"); ("type", JStr "Hero"); ("set", JStr "AS")]
                   "Gandalf" (URIRef "e1") ∅ _ _ _ _ _)).
  - reflexivity.
  - discriminate.
  - reflexivity.
  - reflexivity.
  - intros v Hv. vm_compute in Hv. injection Hv as <-. by eexists.
Defined.

(** A matched card whose ['type'] and ['alignment'] are present and empty
    still gets an additional-type and an additional-property statement. *)
Lemma empty_type_statement_counterexample :
  let d := [("name", JStr "Gandalf"); ("type", JStr ""); ("alignment", JStr "")] in
  let after :=
    graph_after
      (process_card (runtime := example_runtime) [("gandalf", URIRef "e1")] (JObj d)) ∅ in
  dict_get "type" d = Some (JStr "")
  ∧ dict_get "alignment" d = Some (JStr "")
  ∧ (METW "Gandalf", SCHEMA "additionalType", Literal "" (Some "en") None) ∈ after
  ∧ (METW "Gandalf", SCHEMA "additionalProperty",
     Literal "alignment: " (Some "en") None) ∈ after.
Proof.
  split_and!; [reflexivity | reflexivity | |];
    apply (bool_decide_unpack _); by vm_compute.
Qed.

Lemma empty_names_witness :
  is_Some (dict_get ""
             (_build_entity_index (runtime := example_runtime)
                [(URIRef "e1", Literal "" (Some "en") None)]))
  ∧ process_card (runtime := example_runtime)
      (_build_entity_index (runtime := example_runtime)
         [(URIRef "e1", Literal "" (Some "en") None)])
      (JObj [("name", JStr ""); ("type", JStr "Hero")]) ∅
    = (Ok false, ∅).
Proof.
  apply (empty_names (runtime := example_runtime)
           (_build_entity_index (runtime := example_runtime)
              [(URIRef "e1", Literal "" (Some "en") None)])
           [(URIRef "e1", Literal "" (Some "en") None)]
           (URIRef "e1") (Literal "" (Some "en") None)
           [("name", JStr ""); ("type", JStr "Hero")] ∅).
  - by left.
  - reflexivity.
  - reflexivity.
Defined.

(** A top-level mapping whose ['cards'] entry is a list is no nested set, so
    the order of the specification falls back to the top-level ['cards'] key;
    the loop raises on it. *)
Lemma cards_list_under_set_counterexample :
  let card := JObj [("name", JStr "Gandalf")] in
  let payload :=
    JObj [("AS", JObj [("cards", JArr [card])]); ("cards", JArr [card])] in
  payload_ok payload = false
  ∧ extract_policy payload = JArr [card]
  ∧ extract_cards payload = Raise AttributeError.
Proof. by vm_compute. Qed.

(** An English name that is there but empty is the resolved name, and the
    card is skipped although its Spanish name is a key of the index; the
    priority order over non-empty names gives the Spanish name. *)
Lemma empty_english_counterexample :
  let names := [("en", JStr ""); ("es", JStr "Trancos")] in
  name_by_priority names = JStr "Trancos"
  ∧ resolve_card_name (dict_get_default "name" (JStr "") [("name", JObj names)])
    = JStr ""
  ∧ find_best_match (runtime := example_runtime) [("trancos", URIRef "e1")]
      "Trancos" default_threshold
    = Some (URIRef "e1")
  ∧ process_card (runtime := example_runtime) [("trancos", URIRef "e1")]
      (JObj [("name", JObj names)]) ∅
    = (Ok false, ∅).
Proof. by vm_compute. Qed.

(** A graph whose only entity is named [""]: the index that [__init__]
    builds maps [""] to it, and [find_best_match("")] returns it. *)
Lemma empty_name_indexed_counterexample :
  let g : graph := {[ (URIRef "e1", SCHEMA "name", Literal "" (Some "en") None) ]} in
  entity_index_of (runtime := example_runtime) g = [("", URIRef "e1")]
  ∧ find_best_match (runtime := example_runtime)
      (entity_index_of (runtime := example_runtime) g) "" default_threshold
    = Some (URIRef "e1").
Proof. by vm_compute. Qed.

Lemma multilingual_name_witness :
  resolve_card_name
    (dict_get_default "name" (JStr "")
       [("name", JObj [("es", JStr "Trancos"); ("en", JStr "Aragorn")])])
  = JStr "Aragorn"
  ∧ name_by_priority [("es", JStr "Trancos"); ("en", JStr "Aragorn")] = JStr "Aragorn".
Proof.
  destruct (multilingual_name (runtime := example_runtime) []
              [("name", JObj [("es", JStr "Trancos"); ("en", JStr "Aragorn")])]
              [("es", JStr "Trancos"); ("en", JStr "Aragorn")] ∅) as (H1 & H2 & _).
  - reflexivity.
  - split; [exact H1|]. symmetry. exact (H2 eq_refl).
Defined.

Lemma card_identifier_stable_witness :
  (METW "Gandalf_the_Grey", RDF_type, SCHEMA "Thing")
    ∈ graph_after
        (process_card (runtime := example_runtime) [("gandalf the grey", URIRef "e1")]
           (JObj [("name", JStr "Gandalf the Grey")])) ∅
  ∧ (METW "Gandalf_the_Grey", RDF_type, SCHEMA "Thing")
      ∈ graph_after
          (process_card (runtime := example_runtime) [("gandalfthegrey", URIRef "e2")]
             (JObj [("name", JStr "Gandalf the Grey")]))
          {[ (URIRef "e2", SCHEMA "name", Literal "GandalfTheGrey" None None) ]}.
Proof.
  destruct (card_identifier_stable (runtime := example_runtime)
              [("gandalf the grey", URIRef "e1")] [("gandalfthegrey", URIRef "e2")]
              [("name", JStr "Gandalf the Grey")] "Gandalf the Grey"
              (URIRef "e1") (URIRef "e2")
              ∅ {[ (URIRef "e2", SCHEMA "name", Literal "GandalfTheGrey" None None) ]})
    as (H1 & _ & H2 & _).
  - reflexivity.
  - discriminate.
  - by vm_compute.
  - reflexivity.
  - by vm_compute.
  - reflexivity.
  - exact (conj H1 H2).
Defined.

(** ** The documented examples of [difflib] and the scenarios of the
    specification, run on the model *)

Example ratio_abcd_bcde :
  Difflib.ratio_opt (PyStr.chars "abcd") (PyStr.chars "bcde") = Some (6 # 8)%Q.
Proof. reflexivity. Qed.

(** Characters, not bytes: an accented letter is one element of the
    sequence, and two letters that differ in their accent have nothing in
    common. *)
Example chars_accented : PyStr.chars "Éowyn" = ["É"; "o"; "w"; "y"; "n"].
Proof. reflexivity. Qed.

Example chars_and_bytes :
  length (PyStr.chars "eärendil") = 8 ∧ length (PyStr.bytes "eärendil") = 9
  ∧ length (PyStr.chars "a€𝄞") = 3 ∧ length (PyStr.bytes "a€𝄞") = 8.
Proof. by vm_compute. Qed.

Example ratio_accents :
  (SequenceMatcher_ratio "é" "è" == 0)%Q
  ∧ (SequenceMatcher_ratio "earendil" "eärendil" == 7 # 8)%Q
  ∧ (SequenceMatcher_ratio "sùrion" "súrion" == 5 # 6)%Q.
Proof. by vm_compute. Qed.

Example find_longest_match_doc :
  Difflib.find_longest_match (PyStr.chars " abcd") (PyStr.chars "abcd abcd") 0 5 0 9
  = (0, 4, 5).
Proof. reflexivity. Qed.

Example get_matching_blocks_doc :
  Difflib.get_matching_blocks (PyStr.chars "abxcd") (PyStr.chars "abcd")
  = Some [(0, 0, 2); (3, 2, 2); (5, 4, 0)].
Proof. reflexivity. Qed.

(** More than 200 elements: ["a"] and ["b"] are popular and dropped from
    [b2j], so only the lone ["c"] is matched. *)
Example autojunk_popular :
  Difflib.get_matching_blocks
    (mjoin (replicate 100 ["a"; "b"]) ++ ["c"]) ("c" :: mjoin (replicate 100 ["a"; "b"]))
  = Some [(200, 0, 1); (201, 201, 0)].
Proof. by vm_compute. Qed.

Example index_of_two_entities :
  _build_entity_index (runtime := example_runtime)
    [(URIRef "e1", Literal "Gandalf" (Some "en") None);
     (URIRef "e2", Literal "Aragorn II" (Some "en") None)]
  = [("gandalf", URIRef "e1"); ("aragorn ii", URIRef "e2"); ("aragornii", URIRef "e2")].
Proof. reflexivity. Qed.

Example match_gandalf_any_case :
  find_best_match (runtime := example_runtime) [("gandalf", URIRef "e1"); ("aragorn", URIRef "e2")]
    "GanDalf" default_threshold
  = Some (URIRef "e1").
Proof. reflexivity. Qed.

Example match_bilbo_none :
  find_best_match (runtime := example_runtime) [("gandalf", URIRef "e1"); ("aragorn", URIRef "e2")]
    "Bilbo" default_threshold
  = None.
Proof. by vm_compute. Qed.

Example score_gandalph :
  (similarity_score (runtime := example_runtime) "Gandalph" "gandalf" == 4 # 5)%Q.
Proof. by vm_compute. Qed.

Example extract_nested_form :
  extract_cards
    (JObj [("AS", JObj [("cards",
              JObj [("1", JObj [("name", JStr "Gandalf"); ("type", JStr "Hero");
                                ("set", JStr "AS")])])])])
  = Ok (JArr [JObj [("name", JStr "Gandalf"); ("type", JStr "Hero"); ("set", JStr "AS")]]).
Proof. reflexivity. Qed.

Example extract_flat_form :
  extract_cards (JObj [("data", JArr [JObj [("name", JStr "Gandalf")]])])
  = Ok (JArr [JObj [("name", JStr "Gandalf")]]).
Proof. reflexivity. Qed.

Example extract_bare_list :
  extract_cards (JArr [JObj [("name", JStr "Gandalf")]])
  = Ok (JArr [JObj [("name", JStr "Gandalf")]]).
Proof. reflexivity. Qed.

(** A present but empty ['en'] is the resolved name; ['es'] is not looked at. *)
Example resolve_empty_english :
  resolve_card_name (JObj [("en", JStr ""); ("es", JStr "Trancos")]) = JStr "".
Proof. reflexivity. Qed.

Example enrich_one_card :
  let g : graph := {[ (URIRef "e1", SCHEMA "name", Literal "Gandalf" (Some "en") None) ]} in
  let payload :=
    JObj [("AS", JObj [("cards",
            JObj [("1", JObj [("name", JStr "Gandalf"); ("type", JStr "Hero");
                              ("set", JStr "AS")])])])] in
  outcome
    (enrich_with_cards (runtime := example_runtime)
       (entity_index_of (runtime := example_runtime) g) (Some payload)) g
  = Ok 1
  ∧ size (graph_after
            (enrich_with_cards (runtime := example_runtime)
               (entity_index_of (runtime := example_runtime) g) (Some payload)) g)
    = size g + 5.
Proof. by vm_compute. Qed.

Example enrich_missing_file :
  let g : graph := {[ (URIRef "e1", SCHEMA "name", Literal "Gandalf" (Some "en") None) ]} in
  enrich_with_cards (runtime := example_runtime)
    (entity_index_of (runtime := example_runtime) g) None g
  = (Ok 0, g).
Proof. reflexivity. Qed.

Example enrich_string_payload_raises :
  outcome (enrich_with_cards (runtime := example_runtime) [] (Some (JStr "abc"))) ∅
  = Raise AttributeError.
Proof. reflexivity. Qed.

(** * Further properties of the module *)

(** ** The score lies between 0 and 1 *)

Section DifflibRange.
Context {A : Type} `{EqDecision A}.
Implicit Types a b : list A.

Lemma j2len_get_pred_b (j2len : gmap nat nat) blo j :
  blo ≤ j →
  (∀ j' v, j2len !! j' = Some v → blo ≤ j' ∧ v ≤ j' + 1 - blo) →
  Difflib.j2len_get_pred j2len j + 1 ≤ j + 1 - blo.
Proof.
  intros Hj Hb. destruct j as [|j]; simpl; [lia|].
  destruct (j2len !! j) as [v|] eqn:E; simpl; [|lia].
  destruct (Hb j v E). lia.
Qed.

Lemma row_step_in_range_b a b blo bhi i st :
  in_range_b blo bhi st → in_range_b blo bhi (Difflib.row_step a b blo bhi st i).
Proof.
  intros (Hlen & Hlo & Hhi). destruct st as [j2len [[besti bestj] bestsize]].
  cbn [fst snd] in *. unfold Difflib.row_step.
  apply (scan_row_invariant (in_range_b blo bhi)).
  - split_and!; cbn [fst snd]; [|done..]. intros j v. by rewrite lookup_empty.
  - intros j newj2len bi bj bs _ Hj (Hlen' & Hlo' & Hhi'). cbn [fst snd] in *.
    pose proof (j2len_get_pred_b j2len blo j (proj1 Hj) Hlen) as Hk.
    split_and!; cbn [fst snd].
    + intros j' v. rewrite lookup_insert. case_decide; [|by auto].
      intros [= <-]. subst j'. lia.
    + case_bool_decide; cbn [fst snd]; lia.
    + case_bool_decide; cbn [fst snd]; lia.
Qed.

Lemma extend_left_bounds_b a b alo blo bhi :
  ∀ besti bestj bestsize,
    blo ≤ bestj →
    bestsize = 0 ∧ bestj = blo ∨ bestj + bestsize ≤ bhi →
    let r := Difflib.extend_left a b alo blo besti bestj bestsize in
    blo ≤ r.1.2 ∧ (r.2 = 0 ∨ r.1.2 + r.2 ≤ bhi).
Proof.
  induction besti as [|i' IH]; intros bestj bestsize Hlo Hhi; simpl; [lia|].
  destruct bestj as [|j']; simpl; [lia|].
  destruct (_ && _) eqn:E; simpl; [|lia].
  apply andb_prop in E as [E _]. apply andb_prop in E as [_ E].
  apply bool_decide_eq_true in E.
  apply IH; lia.
Qed.

Lemma extend_right_bounds_b a b ahi bhi besti bestj :
  ∀ n bestsize,
    bestsize = 0 ∨ bestj + bestsize ≤ bhi →
    let k := Difflib.extend_right a b n ahi bhi besti bestj bestsize in
    k = 0 ∨ bestj + k ≤ bhi.
Proof.
  induction n as [|n IH]; intros bestsize Hhi; simpl; [lia|].
  destruct (_ && _) eqn:E; simpl; [|lia].
  apply andb_prop in E as [E _]. apply andb_prop in E as [_ E].
  apply bool_decide_eq_true in E.
  apply IH. lia.
Qed.

Lemma find_longest_match_bounds_b a b alo ahi blo bhi i j k :
  Difflib.find_longest_match a b alo ahi blo bhi = (i, j, k) →
  blo ≤ j ∧ (k = 0 ∨ j + k ≤ bhi).
Proof.
  unfold Difflib.find_longest_match.
  pose proof (foldl_seq_invariant (λ _, in_range_b blo bhi)
                (Difflib.row_step a b blo bhi) (ahi - alo) alo (∅, (alo, blo, 0)))
    as Hinv.
  destruct (foldl _ _ _) as [j2len [[besti bestj] bestsize]].
  destruct Hinv as (_ & Hlo & Hhi).
  { split_and!; cbn [fst snd]; [|lia..]. intros ??. by rewrite lookup_empty. }
  { intros. by apply row_step_in_range_b. }
  cbn [fst snd] in *.
  pose proof (extend_left_bounds_b a b alo blo bhi besti bestj bestsize Hlo Hhi) as Hl.
  destruct (Difflib.extend_left _ _ _ _ _ _ _) as [[i' j'] k']. cbn [fst snd] in Hl.
  intros [= <- <- <-].
  split; [lia|].
  apply extend_right_bounds_b. lia.
Qed.

Lemma matched_app (l1 l2 : list (nat * nat * nat)) :
  matched (l1 ++ l2) = matched l1 + matched l2.
Proof. unfold matched. by rewrite map_app, sum_list_with_app. Qed.

Lemma room_cons alo ahi blo bhi queue :
  room_a ((alo, ahi, blo, bhi) :: queue) = ahi - alo + room_a queue
  ∧ room_b ((alo, ahi, blo, bhi) :: queue) = bhi - blo + room_b queue.
Proof. done. Qed.

(** The blocks found never cover more than the ranges offered. *)
Lemma blocks_loop_matched a b :
  ∀ fuel queue acc blocks,
    Difflib.blocks_loop a b fuel queue acc = Some blocks →
    matched blocks ≤ matched acc + room_a queue
    ∧ matched blocks ≤ matched acc + room_b queue.
Proof.
  induction fuel as [|fuel IH]; intros queue acc blocks;
    (destruct queue as [|[[[alo ahi] blo] bhi] queue]; simpl;
     [intros [= <-]; lia|]); [done|].
  destruct (room_cons alo ahi blo bhi queue) as [-> ->].
  destruct (Difflib.find_longest_match a b alo ahi blo bhi) as [[i j] k] eqn:E.
  pose proof (find_longest_match_bounds a b _ _ _ _ _ _ _ E) as [Hia Hka].
  pose proof (find_longest_match_bounds_b a b _ _ _ _ _ _ _ E) as [Hjb Hkb].
  case_bool_decide as Hk.
  - intros Hrun%IH. lia.
  - intros Hrun%IH. rewrite matched_app in Hrun.
    assert (matched [(i, j, k)] = k) as Hs by (unfold matched; simpl; lia).
    rewrite Hs in Hrun.
    repeat (destruct (_ && _)); rewrite ?(proj1 (room_cons _ _ _ _ _)),
      ?(proj2 (room_cons _ _ _ _ _)) in Hrun; lia.
Qed.

Lemma matched_block_insert x l :
  matched (Difflib.block_insert x l) = x.2 + matched l.
Proof.
  induction l as [|y l IH]; simpl; [done|].
  destruct (Difflib.block_leb x y); [done|].
  unfold matched in *. simpl. rewrite IH. lia.
Qed.

Lemma matched_block_sort l : matched (Difflib.block_sort l) = matched l.
Proof.
  induction l as [|x l IH]; [done|]. simpl.
  rewrite matched_block_insert, IH. done.
Qed.

Lemma matched_cons x l : matched (x :: l) = x.2 + matched l.
Proof. done. Qed.

Lemma matched_collapse a b l : matched (Difflib.collapse a b l) = matched l.
Proof.
  unfold Difflib.collapse.
  assert (∀ l i1 j1 k1 acc,
    let r := foldl Difflib.collapse_step (i1, j1, k1, acc) l in
    r.1.2 + matched r.2 = k1 + matched acc + matched l) as Hfold.
  { clear l. induction l as [|[[i2 j2] k2] l IH]; intros i1 j1 k1 acc; cbn zeta.
    - simpl. change (matched []) with 0. lia.
    - cbn [foldl]. rewrite matched_cons. cbn [snd].
      remember (Difflib.collapse_step (i1, j1, k1, acc) (i2, j2, k2)) as st eqn:Est.
      unfold Difflib.collapse_step in Est.
      destruct (_ && _); [|case_bool_decide]; subst st.
      + specialize (IH i1 j1 (k1 + k2) acc). cbn zeta in IH. rewrite IH. lia.
      + specialize (IH i2 j2 k2 acc). cbn zeta in IH. rewrite IH. lia.
      + specialize (IH i2 j2 k2 (acc ++ [(i1, j1, k1)])). cbn zeta in IH.
        rewrite IH, matched_app, matched_cons. change (matched []) with 0.
        cbn [snd]. lia. }
  specialize (Hfold l 0 0 0 []).
  destruct (foldl _ _ l) as [[[i1 j1] k1] acc]. cbn [fst snd] in Hfold.
  change (matched []) with 0 in Hfold.
  rewrite matched_app, matched_cons. change (matched []) with 0. cbn [snd].
  case_bool_decide.
  - lia.
  - rewrite matched_app, matched_cons. change (matched []) with 0. cbn [snd]. lia.
Qed.

Lemma ratio_opt_range a b r :
  Difflib.ratio_opt a b = Some r → (0 <= r)%Q ∧ (r <= 1)%Q.
Proof.
  unfold Difflib.ratio_opt, Difflib.get_matching_blocks.
  destruct (Difflib.blocks_loop a b _ _ _) as [blocks|] eqn:E; [|done].
  apply blocks_loop_matched in E as [Ha Hb].
  destruct (room_cons 0 (length a) 0 (length b) []) as [Hra Hrb].
  rewrite Hra in Ha. rewrite Hrb in Hb.
  change (room_a []) with 0 in Ha. change (room_b []) with 0 in Hb.
  change (matched []) with 0 in Ha, Hb.
  simpl. intros [= <-].
  fold (matched (Difflib.collapse a b (Difflib.block_sort blocks))).
  rewrite matched_collapse, matched_block_sort.
  unfold Difflib._calculate_ratio. case_bool_decide as Hlen; [done|].
  unfold Qle. simpl. split; [lia|].
  rewrite Z.mul_1_r, Z.mul_1_l.
  rewrite <- (positive_nat_Z (Pos.of_nat _)), Nat2Pos.id by done. lia.
Qed.

End DifflibRange.

Lemma SequenceMatcher_ratio_range (a b : string) :
  (0 <= SequenceMatcher_ratio a b)%Q ∧ (SequenceMatcher_ratio a b <= 1)%Q.
Proof.
  unfold SequenceMatcher_ratio.
  destruct (ratio_opt_total (PyStr.chars a) (PyStr.chars b)) as [r Hr].
  rewrite Hr. simpl. by eapply ratio_opt_range.
Qed.

(** X1.  [similarity_score] always returns a score between 0 and 1. *)
Theorem similarity_score_range {runtime : PyRuntime} (str1 str2 : string) :
  (0 <= similarity_score str1 str2)%Q ∧ (similarity_score str1 str2 <= 1)%Q.
Proof. apply SequenceMatcher_ratio_range. Qed.

(** ** The score at its two ends *)

(** X2.  Two strings with the same lowercase form have similarity 1. *)
Theorem similarity_score_ignores_case {runtime : PyRuntime} (str1 str2 : string) :
  str_lower str1 = str_lower str2 →
  (similarity_score str1 str2 == 1)%Q.
Proof.
  intros Heq. unfold similarity_score. rewrite Heq.
  apply SequenceMatcher_ratio_self.
Qed.

Lemma similarity_score_ignores_case_witness :
  (similarity_score (runtime := example_runtime) "Minas Tirith" "MINAS tirith" == 1)%Q.
Proof.
  apply (similarity_score_ignores_case (runtime := example_runtime)).
  reflexivity.
Defined.

Section DifflibDisjoint.
Context {A : Type} `{EqDecision A}.
Variables a b : list A.
Hypothesis Hdisjoint : ∀ x, x ∈ a → x ∉ b.

Lemma positions_absent x : x ∉ b → Difflib.positions b x = [].
Proof.
  intros Hx. unfold Difflib.positions.
  induction (seq 0 (length b)) as [|j js IH]; [done|].
  rewrite filter_cons_False; [done|].
  intros Hj. apply Hx. by eapply list_elem_of_lookup_2.
Qed.

Lemma row_step_disjoint blo bhi st i :
  (Difflib.row_step a b blo bhi st i).2 = st.2.
Proof.
  destruct st as [j2len best]. unfold Difflib.row_step.
  destruct (a !! i) as [x|] eqn:Hx; [|done].
  unfold Difflib.b2j_get. destruct (Difflib.popular b x); [done|].
  rewrite positions_absent; [done|].
  apply Hdisjoint. by eapply list_elem_of_lookup_2.
Qed.

Lemma find_longest_match_disjoint :
  Difflib.find_longest_match a b 0 (length a) 0 (length b) = (0, 0, 0).
Proof.
  unfold Difflib.find_longest_match.
  assert (∀ l st, (foldl (Difflib.row_step a b 0 (length b)) st l).2 = st.2) as Hfold.
  { induction l as [|i l IH]; intros st; simpl; [done|].
    by rewrite IH, row_step_disjoint. }
  specialize (Hfold (seq 0 (length a - 0)) (∅, (0, 0, 0))).
  destruct (foldl _ _ _) as [j2len best]. simpl in Hfold. subst best.
  simpl. f_equal.
  destruct (length a - 0) as [|n] eqn:Hn; simpl; [done|].
  destruct (bool_decide (0 < length a) && bool_decide (0 < length b)
            && bool_decide (a !! 0 = b !! 0)) eqn:E; [|done].
  apply andb_prop in E as [_ E%bool_decide_eq_true].
  destruct (a !! 0) as [x|] eqn:Hx.
  - exfalso. apply (Hdisjoint x); by eapply list_elem_of_lookup_2.
  - apply lookup_ge_None in Hx. lia.
Qed.

Lemma blocks_loop_empty_queue fuel acc : Difflib.blocks_loop a b fuel [] acc = Some acc.
Proof. by destruct fuel. Qed.

Lemma ratio_opt_disjoint :
  a ≠ [] ∨ b ≠ [] → ∃ r, Difflib.ratio_opt a b = Some r ∧ (r == 0)%Q.
Proof.
  intros Hne. unfold Difflib.ratio_opt, Difflib.get_matching_blocks.
  replace (2 * length a + 1) with (S (2 * length a)) by lia.
  cbn [Difflib.blocks_loop]. rewrite find_longest_match_disjoint.
  rewrite bool_decide_eq_true_2 by done. rewrite blocks_loop_empty_queue.
  eexists. split; [reflexivity|].
  unfold Difflib.collapse. simpl. unfold Difflib._calculate_ratio.
  rewrite bool_decide_eq_false_2; [done|].
  destruct Hne; destruct a, b; simpl; done || lia.
Qed.

End DifflibDisjoint.

Lemma chars_nil (s : string) : PyStr.chars s = [] → s = "".
Proof.
  destruct s as [|b s]; [done|]. unfold PyStr.chars. cbn [PyStr.split_chars].
  destruct (PyStr.split_chars s) as [pending cs].
  by destruct (PyStr.is_continuation b).
Qed.

(** X3.  Two strings whose lowercase forms have no character in common and
    are not both empty have similarity 0. *)
Theorem similarity_score_disjoint {runtime : PyRuntime} (str1 str2 : string) :
  (∀ c, c ∈ PyStr.chars (str_lower str1) → c ∉ PyStr.chars (str_lower str2)) →
  str_lower str1 ≠ "" ∨ str_lower str2 ≠ "" →
  (similarity_score str1 str2 == 0)%Q.
Proof.
  intros Hdis Hne. unfold similarity_score, SequenceMatcher_ratio.
  destruct (ratio_opt_disjoint _ _ Hdis) as (r & -> & Hr); [|done].
  destruct Hne as [Hne|Hne]; [left|right]; intros Hnil; by apply Hne, chars_nil.
Qed.

Lemma similarity_score_disjoint_witness :
  (similarity_score (runtime := example_runtime) "Bilbo" "Gandar" == 0)%Q.
Proof.
  apply (similarity_score_disjoint (runtime := example_runtime) "Bilbo" "Gandar").
  - intros c Hc Hc'. vm_compute in Hc, Hc'.
    repeat (apply elem_of_cons in Hc as [->|Hc];
            [repeat (apply elem_of_cons in Hc' as [Hc'|Hc']; [discriminate Hc'|]);
             by apply elem_of_nil in Hc'|]).
    by apply elem_of_nil in Hc.
  - by left.
Defined.

(** ** The matcher *)

Lemma fuzzy_scan_ext (f g : string → string → Q) c1 c2 t items :
  (∀ k, f c1 k = g c2 k) →
  ∀ st, foldl (fuzzy_step f c1 t) st items = foldl (fuzzy_step g c2 t) st items.
Proof.
  intros Hfg. induction items as [|[k v] items IH]; intros [bs bm]; simpl; [done|].
  by rewrite Hfg, IH.
Qed.

(** X4.  [find_best_match] does not see the case of the candidate: two
    candidates with the same lowercase form get the same answer. *)
Theorem find_best_match_ignores_case {runtime : PyRuntime} (entity_index : pydict node)
    (card_name1 card_name2 : string) (t : Q) :
  str_lower card_name1 = str_lower card_name2 →
  find_best_match entity_index card_name1 t = find_best_match entity_index card_name2 t.
Proof.
  intros Heq. unfold find_best_match, find_best_match_by, fuzzy_match.
  rewrite Heq. destruct (dict_get _ _); [done|].
  f_equal. apply fuzzy_scan_ext. intros k. unfold similarity_score. by rewrite Heq.
Qed.

Lemma find_best_match_ignores_case_witness :
  find_best_match (runtime := example_runtime) [("gandalf", URIRef "e1")] "GANDALFF" (17 # 20)
  = find_best_match (runtime := example_runtime) [("gandalf", URIRef "e1")] "gandalff" (17 # 20).
Proof.
  apply (find_best_match_ignores_case (runtime := example_runtime)).
  reflexivity.
Defined.

Section FuzzyScan.
Variable score_method : string → string → Q.
Variables (card_name : string) (t : Q).

(** The state of the scan after any list of keys: nothing yet, because no
    key had a positive score at or above the threshold; or the first key
    with the highest score. *)
Lemma fuzzy_scan_first_maximum (items : list (string * node)) :
  let st := foldl (fuzzy_step score_method card_name t) (0%Q, None) items in
  (st = (0%Q, None)
   ∧ Forall (λ item, ¬ ((0 < score_method card_name item.1)%Q
                        ∧ (t <= score_method card_name item.1)%Q)) items)
  ∨ (∃ before k e after,
        items = before ++ (k, e) :: after
        ∧ st = (score_method card_name k, Some e)
        ∧ (0 < score_method card_name k)%Q
        ∧ (t <= score_method card_name k)%Q
        ∧ Forall (λ item, (score_method card_name item.1
                           < score_method card_name k)%Q) before
        ∧ Forall (λ item, (score_method card_name item.1
                           <= score_method card_name k)%Q) after).
Proof.
  induction items as [|[k v] items IH] using rev_ind; cbn zeta.
  - left. split; [done|constructor].
  - rewrite foldl_app. cbn [foldl]. cbn zeta in IH.
    destruct IH as [[-> Hnone]|(before & k0 & e0 & after & -> & -> & Hpos & Hthr & Hb & Ha)].
    + destruct (Qlt_le_dec 0 (score_method card_name k)) as [Hk|Hk];
        [destruct (Qlt_le_dec (score_method card_name k) t) as [Hkt|Hkt]|].
      * left. rewrite fuzzy_step_keeps.
        -- split; [done|]. apply Forall_app. split; [done|].
           constructor; [|constructor]. simpl. intros [_ ?]. by eapply Qlt_not_le.
        -- intros [_ ?]. by eapply Qlt_not_le.
      * right. exists items, k, v, []. rewrite fuzzy_step_replaces by done.
        split_and!; try done.
        eapply Forall_impl; [exact Hnone|]. intros [k' v'] Hfail. simpl in *.
        destruct (Qlt_le_dec (score_method card_name k') (score_method card_name k))
          as [?|Hge]; [done|].
        exfalso. apply Hfail. split.
        -- by eapply Qlt_le_trans.
        -- by eapply Qle_trans.
      * left. rewrite fuzzy_step_keeps.
        -- split; [done|]. apply Forall_app. split; [done|].
           constructor; [|constructor]. simpl. intros [? _]. by eapply Qlt_not_le.
        -- intros [? _]. by eapply Qlt_not_le.
    + right.
      destruct (Qlt_le_dec (score_method card_name k0) (score_method card_name k))
        as [Hlt|Hle].
      * exists (before ++ (k0, e0) :: after), k, v, [].
        rewrite fuzzy_step_replaces; [|done|].
        2: { eapply Qle_trans; [exact Hthr|]. by apply Qlt_le_weak. }
        split_and!; try done.
        -- exact (Qlt_trans _ _ _ Hpos Hlt).
        -- eapply Qle_trans; [exact Hthr|]. by apply Qlt_le_weak.
        -- apply Forall_app. split.
           ++ eapply Forall_impl; [exact Hb|]. intros item Hi.
              exact (Qlt_trans _ _ _ Hi Hlt).
           ++ constructor; [done|].
              eapply Forall_impl; [exact Ha|]. intros item Hi.
              exact (Qle_lt_trans _ _ _ Hi Hlt).
      * exists before, k0, e0, (after ++ [(k, v)]).
        rewrite fuzzy_step_keeps.
        2: { intros [? _]. by eapply Qlt_not_le. }
        split_and!; try done.
        -- by rewrite <- app_assoc.
        -- apply Forall_app. split; [done|]. by constructor.
Qed.

End FuzzyScan.


(** X6.  In the fuzzy phase the entity returned is stored under a key whose
    score is the highest of all keys of the index. *)
Theorem fuzzy_match_is_maximum {runtime : PyRuntime} (entity_index : pydict node)
    (card_name : string) (t : Q) (e : node) :
  dict_get (str_lower card_name) entity_index = None →
  find_best_match entity_index card_name t = Some e →
  ∃ entity_name,
    (entity_name, e) ∈ dict_items entity_index
    ∧ ∀ item, item ∈ dict_items entity_index →
              (similarity_score card_name item.1
               <= similarity_score card_name entity_name)%Q.
Proof.
  intros Hget. unfold find_best_match, find_best_match_by, fuzzy_match.
  rewrite Hget.
  pose proof (fuzzy_scan_first_maximum similarity_score card_name t
                (dict_items entity_index)) as Hscan. cbn zeta in Hscan.
  destruct Hscan as [[-> _]|(before & k & e' & after & Hitems & -> & _ & _ & Hb & Ha)];
    [done|].
  intros [= ->]. exists k. rewrite Hitems. split.
  - apply elem_of_app. right. by left.
  - intros item [Hin|[->|Hin]%elem_of_cons]%elem_of_app.
    + apply Qlt_le_weak. by apply (proj1 (Forall_forall _ _) Hb).
    + apply Qle_refl.
    + by apply (proj1 (Forall_forall _ _) Ha).
Qed.

Lemma fuzzy_match_is_maximum_witness :
  ∃ entity_name,
    (entity_name, URIRef "e2")
      ∈ dict_items [("gandalf", URIRef "e1"); ("gandalff", URIRef "e2")]
    ∧ ∀ item, item ∈ dict_items [("gandalf", URIRef "e1"); ("gandalff", URIRef "e2")] →
              (similarity_score (runtime := example_runtime) "Gandalfff" item.1
               <= similarity_score (runtime := example_runtime) "Gandalfff" entity_name)%Q.
Proof.
  apply (fuzzy_match_is_maximum (runtime := example_runtime)
           [("gandalf", URIRef "e1"); ("gandalff", URIRef "e2")] "Gandalfff" (17 # 20)).
  - reflexivity.
  - by vm_compute.
Defined.

(** X7.  Lowering the threshold never changes a match: what is found at a
    threshold is found, and is the same entity, at every lower one. *)
Theorem lower_threshold_keeps_match {runtime : PyRuntime} (entity_index : pydict node)
    (card_name : string) (t1 t2 : Q) (e : node) :
  (t1 <= t2)%Q →
  find_best_match entity_index card_name t2 = Some e →
  find_best_match entity_index card_name t1 = Some e.
Proof.
  intros Hle. unfold find_best_match, find_best_match_by.
  destruct (dict_get _ _) as [e'|]; [done|]. unfold fuzzy_match at 1.
  pose proof (fuzzy_scan_first_maximum similarity_score card_name t2
                (dict_items entity_index)) as Hscan. cbn zeta in Hscan.
  destruct Hscan as [[-> _]|(before & k & e' & after & Hitems & -> & Hpos & Hthr & Hb & Ha)];
    [done|].
  intros [= ->].
  eapply fuzzy_match_first_maximum; try done.
  by eapply Qle_trans.
Qed.

Lemma lower_threshold_keeps_match_witness :
  find_best_match (runtime := example_runtime)
    [("gandalf", URIRef "e1"); ("aragorn", URIRef "e2")] "Gandalff" (1 # 2)
  = Some (URIRef "e1").
Proof.
  apply (lower_threshold_keeps_match (runtime := example_runtime)
           [("gandalf", URIRef "e1"); ("aragorn", URIRef "e2")] "Gandalff"
           (1 # 2) (17 # 20)).
  - by vm_compute.
  - by vm_compute.
Defined.

(** ** The entity index *)

Lemma dict_set_elem_of {V} (k k' : string) (v v' : V) (d : pydict V) :
  (k', v') ∈ dict_set k v d → (k', v') = (k, v) ∨ (k', v') ∈ d.
Proof.
  induction d as [|[k0 v0] d IH]; simpl.
  - intros ->%list_elem_of_singleton. by left.
  - case_decide.
    + intros [->|Hin]%elem_of_cons; [by left|]. right. by right.
    + intros [->|Hin]%elem_of_cons; [right; by left|].
      destruct (IH Hin) as [?|?]; [by left|]. right. by right.
Qed.

Lemma index_row_entries {runtime : PyRuntime} (index : pydict node) (row : node * node) key e :
  (key, e) ∈ index_row index row →
  (key, e) ∈ index ∨ (row.1 = e ∧ key ∈ row_keys row).
Proof.
  destruct row as [entity_uri row_name]. unfold index_row, row_keys. cbn [fst snd].
  intros [[= -> ->]|[[= -> ->]|Hin]%dict_set_elem_of]%dict_set_elem_of.
  - right. split; [done|]. right. by left.
  - right. split; [done|]. by left.
  - by left.
Qed.

Lemma build_entity_index_rows {runtime : PyRuntime} (results : list (node * node))
    (key : string) (e : node) :
  (key, e) ∈ dict_items (_build_entity_index results) →
  ∃ row_name, (e, row_name) ∈ results
              ∧ (key = str_lower (node_str row_name)
                 ∨ key = PyStr.replace_space "" (str_lower (node_str row_name))).
Proof.
  unfold _build_entity_index, dict_items.
  assert (∀ index : pydict node,
    (key, e) ∈ foldl index_row index results →
    (key, e) ∈ index ∨ ∃ row, row ∈ results ∧ row.1 = e ∧ key ∈ row_keys row) as Hfold.
  { induction results as [|row results IH]; intros index Hin; simpl in Hin; [by left|].
    apply IH in Hin as [Hin|(row' & ? & ? & ?)].
    - apply index_row_entries in Hin as [?|[??]]; [by left|].
      right. exists row. split; [by left|done].
    - right. exists row'. split; [by right|done]. }
  intros [[]%elem_of_nil|([e' row_name] & Hin & <- & Hkey)]%Hfold.
  exists row_name. split; [done|].
  unfold row_keys in Hkey. cbn [fst snd] in Hkey.
  apply elem_of_cons in Hkey as [->|[->|[]%elem_of_nil]%elem_of_cons]; auto.
Qed.

(** X8.  Every entry of the index comes from a row of the query: its key is
    the lowercased name of the entity it points at, or that lowercased name
    without its spaces. *)
Theorem entity_index_entries {runtime : PyRuntime} (results : list (node * node))
    (key : string) (e : node) :
  (key, e) ∈ dict_items (_build_entity_index results) →
  ∃ row_name, (e, row_name) ∈ results
              ∧ (key = str_lower (node_str row_name)
                 ∨ key = PyStr.replace_space "" (str_lower (node_str row_name))).
Proof. apply build_entity_index_rows. Qed.

Lemma entity_index_entries_witness :
  ∃ row_name,
    (URIRef "e2", row_name)
      ∈ [(URIRef "e1", Literal "Gandalf" None None);
         (URIRef "e2", Literal "Minas Tirith" None None)]
    ∧ ("minastirith" = str_lower (PyRuntime := example_runtime) (node_str row_name)
       ∨ "minastirith"
         = PyStr.replace_space ""
             (str_lower (PyRuntime := example_runtime) (node_str row_name))).
Proof.
  apply (entity_index_entries (runtime := example_runtime)
           [(URIRef "e1", Literal "Gandalf" None None);
            (URIRef "e2", Literal "Minas Tirith" None None)]
           "minastirith" (URIRef "e2")).
  apply (bool_decide_unpack _). by vm_compute.
Defined.

Lemma index_row_get {runtime : PyRuntime} (index : pydict node) (row : node * node) key :
  dict_get key (index_row index row)
  = if bool_decide (key ∈ row_keys row) then Some row.1 else dict_get key index.
Proof.
  destruct row as [entity_uri row_name]. unfold index_row, row_keys. cbn [fst snd].
  rewrite !dict_get_set. case_bool_decide as Hin.
  - apply elem_of_cons in Hin as [->|[->|[]%elem_of_nil]%elem_of_cons].
    + by repeat case_decide.
    + by rewrite decide_True.
  - rewrite !decide_False; [done|..]; intros <-; apply Hin.
    + by left.
    + right. by left.
Qed.

(** X9.  Last write wins: the index maps a key to the entity of the last
    row that writes it (a row writes the lowercased name and that name
    without its spaces), and [find_best_match] returns that entity, at every
    threshold, for every candidate whose lowercase form is the key. *)
Theorem entity_index_last_wins {runtime : PyRuntime} (before after : list (node * node))
    (row : node * node) (key card_name : string) (t : Q) :
  key ∈ row_keys row →
  Forall (λ later, key ∉ row_keys later) after →
  str_lower card_name = key →
  dict_get key (_build_entity_index (before ++ row :: after)) = Some row.1
  ∧ find_best_match (_build_entity_index (before ++ row :: after)) card_name t
    = Some row.1.
Proof.
  intros Hkey Hafter Hlower.
  assert (dict_get key (_build_entity_index (before ++ row :: after)) = Some row.1)
    as Hget.
  { unfold _build_entity_index. rewrite foldl_app. cbn [foldl].
    assert (∀ index, dict_get key index = Some row.1 →
                     dict_get key (foldl index_row index after) = Some row.1) as Hkeep.
    { induction Hafter as [|later after Hlater _ IH]; intros index Hi; simpl; [done|].
      apply IH. rewrite index_row_get. by rewrite bool_decide_eq_false_2. }
    apply Hkeep. rewrite index_row_get. by rewrite bool_decide_eq_true_2. }
  split; [done|].
  unfold find_best_match, find_best_match_by. by rewrite Hlower, Hget.
Qed.

Lemma entity_index_last_wins_witness :
  dict_get "minastirith"
    (_build_entity_index (runtime := example_runtime)
       ([(URIRef "e1", Literal "Minas Tirith" None None)]
        ++ (URIRef "e2", Literal "MINAS TIRITH" None None)
           :: [(URIRef "e3", Literal "Gandalf" None None)]))
  = Some (URIRef "e2")
  ∧ find_best_match (runtime := example_runtime)
      (_build_entity_index (runtime := example_runtime)
         ([(URIRef "e1", Literal "Minas Tirith" None None)]
          ++ (URIRef "e2", Literal "MINAS TIRITH" None None)
             :: [(URIRef "e3", Literal "Gandalf" None None)]))
      "MinasTirith" (17 # 20)
    = Some (URIRef "e2").
Proof.
  apply (entity_index_last_wins (runtime := example_runtime)
           [(URIRef "e1", Literal "Minas Tirith" None None)]
           [(URIRef "e3", Literal "Gandalf" None None)]
           (URIRef "e2", Literal "MINAS TIRITH" None None)
           "minastirith" "MinasTirith" (17 # 20)).
  - apply (bool_decide_unpack _). by vm_compute.
  - repeat constructor. apply (bool_decide_unpack _). by vm_compute.
  - reflexivity.
Defined.

(** ** What a run adds to the graph *)

Section AddsOnly.
Context {A B : Type}.
Variable P : triple → Prop.

Lemma adds_only_ret (a : A) : adds_only P (ret a).
Proof. intros g t Ht. by left. Qed.

Lemma adds_only_raise (e : exn) : adds_only P (raise (A:=A) e).
Proof. intros g t Ht. by left. Qed.

Lemma adds_only_lift (r : result A) : adds_only P (lift r).
Proof. intros g t Ht. by left. Qed.

Lemma adds_only_graph_add (t : triple) : P t → adds_only P (graph_add t).
Proof.
  intros Ht g t'. unfold graph_add. simpl.
  intros [->%elem_of_singleton|?]%elem_of_union; [by right|by left].
Qed.

Lemma adds_only_bind (m : M A) (k : A → M B) :
  adds_only P m → (∀ a, adds_only P (k a)) → adds_only P (m ≫= k).
Proof.
  intros Hm Hk g t. unfold mbind, M_bind, bind.
  specialize (Hm g). destruct (m g) as [[a|e] g']; simpl in *.
  - intros [Ht|Ht]%Hk; [by apply Hm|by right].
  - apply Hm.
Qed.

Lemma adds_at_most_ret (a : A) : adds_at_most 0 (ret a).
Proof. intros g. unfold ret. simpl. lia. Qed.

Lemma adds_at_most_raise (e : exn) : adds_at_most 0 (raise (A:=A) e).
Proof. intros g. unfold raise. simpl. lia. Qed.

Lemma adds_at_most_lift (r : result A) : adds_at_most 0 (lift r).
Proof. intros g. unfold lift. simpl. lia. Qed.

Lemma adds_at_most_bind (n k : nat) (m : M A) (f : A → M B) :
  adds_at_most n m → (∀ a, adds_at_most k (f a)) → adds_at_most (n + k) (m ≫= f).
Proof.
  intros Hm Hf g. unfold mbind, M_bind, bind.
  specialize (Hm g). destruct (m g) as [[a|e] g']; simpl in *.
  - specialize (Hf a g'). lia.
  - lia.
Qed.

Lemma adds_at_most_le (n n' : nat) (m : M A) :
  n ≤ n' → adds_at_most n m → adds_at_most n' m.
Proof. intros Hle Hm g. specialize (Hm g). lia. Qed.

End AddsOnly.

Lemma adds_at_most_graph_add (t : triple) : adds_at_most 1 (graph_add t).
Proof.
  intros g. unfold graph_add. simpl.
  rewrite size_union_alt, size_singleton.
  assert (size (g ∖ {[t]}) ≤ size g); [|lia].
  apply subseteq_size, subseteq_difference_l. done.
Qed.

Create HintDb adds.

#[local] Hint Resolve adds_only_ret adds_only_raise adds_only_lift : adds.
#[local] Hint Resolve adds_at_most_ret adds_at_most_raise adds_at_most_lift
  adds_at_most_graph_add : adds.

Lemma find_best_match_in_index {runtime : PyRuntime} (entity_index : pydict node)
    (card_name : string) (t : Q) (e : node) :
  find_best_match entity_index card_name t = Some e →
  ∃ key, (key, e) ∈ dict_items entity_index.
Proof.
  unfold find_best_match, find_best_match_by.
  destruct (dict_get _ _) as [e'|] eqn:Hget.
  - intros [= ->]. eexists. by eapply dict_get_elem_of.
  - intros (key & Hin & _)%fuzzy_match_threshold. by exists key.
Qed.

Section EnrichAdds.
Context {runtime : PyRuntime}.
Variable entity_index : pydict node.

Lemma link_card_adds_only (card : pydict json) (card_name : string) (entity_uri : node) :
  adds_only
    (λ t, t = (entity_uri, SCHEMA "subjectOf", card_uri_of card card_name)
          ∨ (t.1.1 = card_uri_of card card_name ∧ t.1.2 ∈ card_predicates))
    (link_card card card_name entity_uri).
Proof.
  unfold link_card.
  assert (∀ p, bool_decide (p ∈ card_predicates) = true → p ∈ card_predicates) as Hdec.
  { intros p. apply bool_decide_eq_true_1. }
  repeat (apply adds_only_bind; [|intros ?]).
  - apply adds_only_graph_add. right. split; [done|]. apply Hdec. by vm_compute.
  - apply adds_only_graph_add. right. split; [done|]. apply Hdec. by vm_compute.
  - apply adds_only_graph_add. by left.
  - destruct (dict_get "type" card); [|auto with adds].
    apply adds_only_bind; [auto with adds|intros lit].
    apply adds_only_graph_add. right. split; [done|]. apply Hdec. by vm_compute.
  - destruct (dict_get "alignment" card); [|auto with adds].
    apply adds_only_graph_add. right. split; [done|]. apply Hdec. by vm_compute.
  - destruct (truthy _); [|auto with adds].
    apply adds_only_graph_add. right. split; [done|]. apply Hdec. by vm_compute.
Qed.

(** The relation from the entity to the card node is in the graph whether or
    not the optional statements follow. *)
Lemma link_card_links (card : pydict json) (card_name : string) (entity_uri : node)
    (g : graph) :
  (entity_uri, SCHEMA "subjectOf", card_uri_of card card_name)
    ∈ (link_card card card_name entity_uri g).2.
Proof.
  pose proof (link_card_about_card card card_name entity_uri g) as (_ & Hlink & _).
  by rewrite card_uri_of_identifier.
Qed.

Lemma linker_statement_mono (g g' : graph) (t : triple) :
  g ⊆ g' → linker_statement entity_index g t → linker_statement entity_index g' t.
Proof.
  intros Hsub (key & e & name & Hkey & Hlink & Ht).
  exists key, e, name. split_and!; [done| |done]. by apply Hsub.
Qed.

Lemma process_card_linker (card : json) (g : graph) (t : triple) :
  t ∈ (process_card entity_index card g).2 →
  t ∈ g ∨ linker_statement entity_index (process_card entity_index card g).2 t.
Proof.
  unfold process_card. destruct card; try (by left).
  destruct (negb _); [by left|].
  destruct (resolve_card_name _); try (by left).
  destruct (find_best_match _ _ _) as [e|] eqn:Hm; [|by left].
  apply find_best_match_in_index in Hm as [key Hkey].
  destruct (node_truthy e); [|by left].
  unfold mbind, M_bind, bind.
  pose proof (link_card_adds_only d s e g t) as Hshape.
  pose proof (link_card_links d s e g) as Hlink.
  assert (∃ name, card_uri_of d s = METW name) as [name Hname] by by eexists.
  rewrite Hname in Hshape, Hlink.
  destruct (link_card d s e g) as [[[]|ex] g1]; simpl in *.
  - intros [?|Ht]%Hshape; [by left|]. right. by exists key, e, name.
  - intros [?|Ht]%Hshape; [by left|]. right. by exists key, e, name.
Qed.

Lemma for_cards_linker (all_cards : list json) :
  ∀ linked_count (g : graph) (t : triple),
    t ∈ (for_cards entity_index all_cards linked_count g).2 →
    t ∈ g
    ∨ linker_statement entity_index (for_cards entity_index all_cards linked_count g).2 t.
Proof.
  induction all_cards as [|card rest IH]; intros k g t; simpl; [by left|].
  unfold mbind, M_bind, bind.
  pose proof (process_card_linker card g t) as Hcard.
  destruct (process_card entity_index card g) as [[linked|e] g1]; simpl in *; [|done].
  intros [Ht|Ht]%IH; [|by right].
  destruct (Hcard Ht) as [?|Hl]; [by left|]. right.
  eapply linker_statement_mono; [|done].
  apply (inserts_only_extends (for_cards entity_index rest _)), inserts_only_for_cards.
Qed.

Lemma enrich_with_cards_linker (cards_file : option json) (g : graph) (t : triple) :
  t ∈ graph_after (enrich_with_cards entity_index cards_file) g →
  t ∈ g
  ∨ linker_statement entity_index
      (graph_after (enrich_with_cards entity_index cards_file) g) t.
Proof.
  unfold graph_after.
  destruct cards_file as [cards_data|]; simpl; [|by left].
  unfold enrich_cards_data, mbind, M_bind, bind, lift, ret.
  destruct (extract_cards cards_data) as [all_cards|e]; [|by left].
  destruct (py_len all_cards) as [len|e]; [|by left].
  case_bool_decide; [by left|].
  destruct (py_iter all_cards) as [cards|e]; [|by left].
  apply for_cards_linker.
Qed.

(** X10.  Whatever the catalog holds, and also when the run ends in an
    exception, a statement that [enrich_with_cards] adds is the
    [schema:subjectOf] relation from an entity of the index to a card node,
    or describes such a card node: its subject is a node of the card
    namespace that the enriched graph relates to an entity of the index, and
    its predicate is one of [rdf:type], [rdfs:label],
    [schema:additionalType], [schema:additionalProperty], [schema:isPartOf].
    No card node is left without an entity. *)
Theorem enrich_with_cards_adds_linker_statements (cards_file : option json)
    (g : graph) (s p o : node) :
  let enriched := graph_after (enrich_with_cards entity_index cards_file) g in
  (s, p, o) ∈ enriched →
  (s, p, o) ∈ g
  ∨ ∃ key entity_uri name,
      (key, entity_uri) ∈ dict_items entity_index
      ∧ (entity_uri, SCHEMA "subjectOf", METW name) ∈ enriched
      ∧ ((s, p, o) = (entity_uri, SCHEMA "subjectOf", METW name)
         ∨ (s = METW name ∧ p ∈ card_predicates)).
Proof. intros enriched Hin. by apply enrich_with_cards_linker in Hin. Qed.

Lemma elem_of_query_names (g : graph) (entity row_name : node) :
  (entity, row_name) ∈ query_names g ↔ (entity, SCHEMA "name", row_name) ∈ g.
Proof.
  unfold query_names. rewrite list_elem_of_omap. split.
  - intros ([[s p] o] & Hin%elem_of_elements & Hrow).
    case_decide; [|done]. injection Hrow as -> ->. by subst.
  - intros Hin. exists (entity, SCHEMA "name", row_name).
    split; [by apply elem_of_elements|]. by rewrite decide_True.
Qed.

(** X11.  Enrichment adds no [schema:name] statement: the rows of the name
    query, from which the index is built, are the same before and after. *)
Theorem enrich_with_cards_keeps_names (cards_file : option json) (g : graph)
    (entity row_name : node) :
  (entity, row_name) ∈ query_names (graph_after (enrich_with_cards entity_index cards_file) g)
  ↔ (entity, row_name) ∈ query_names g.
Proof.
  rewrite !elem_of_query_names. split.
  - intros [?|(key & e & name & _ & _ & [Ht|[_ Hp]])]%enrich_with_cards_linker; [done|..].
    + exfalso. injection Ht as _ Hp _. revert Hp. by vm_compute.
    + exfalso. revert Hp. apply (bool_decide_eq_false_1 _). by vm_compute.
  - apply inserts_only_extends, inserts_only_enrich_with_cards.
Qed.

Lemma link_card_adds_at_most (card : pydict json) (card_name : string) (entity_uri : node) :
  adds_at_most 6 (link_card card card_name entity_uri).
Proof.
  unfold link_card.
  change 6 with (1 + (1 + (1 + (1 + (1 + 1))))).
  repeat (apply adds_at_most_bind; [auto with adds|intros ?]).
  - destruct (dict_get "type" card).
    + change 1 with (0 + 1). apply adds_at_most_bind; auto with adds.
    + apply (adds_at_most_le 0); [lia|auto with adds].
  - destruct (dict_get "alignment" card); [auto with adds|].
    apply (adds_at_most_le 0); [lia|auto with adds].
  - destruct (truthy _); [auto with adds|].
    apply (adds_at_most_le 0); [lia|auto with adds].
Qed.

Lemma process_card_adds_at_most (card : json) :
  adds_at_most 6 (process_card entity_index card).
Proof.
  unfold process_card.
  destruct card; try solve [apply (adds_at_most_le 0); [lia|auto with adds]].
  destruct (negb _); [solve [apply (adds_at_most_le 0); [lia|auto with adds]]|].
  destruct (resolve_card_name _);
    try solve [apply (adds_at_most_le 0); [lia|auto with adds]].
  destruct (find_best_match _ _ _) as [e|];
    [|solve [apply (adds_at_most_le 0); [lia|auto with adds]]].
  destruct (node_truthy e); [|solve [apply (adds_at_most_le 0); [lia|auto with adds]]].
  change 6 with (6 + 0).
  apply adds_at_most_bind; [apply link_card_adds_at_most | auto with adds].
Qed.

(** A card that is not counted leaves the graph as it was. *)
Lemma process_card_not_counted (card : json) (g g' : graph) :
  process_card entity_index card g = (Ok false, g') → g' = g.
Proof.
  unfold process_card.
  destruct card; try (by intros [= <-]).
  destruct (negb _); [by intros [= <-]|].
  destruct (resolve_card_name _); try (by intros [= <-]).
  destruct (find_best_match _ _ _) as [e|]; [|by intros [= <-]].
  destruct (node_truthy e); [|by intros [= <-]].
  unfold mbind, M_bind, bind.
  by destruct (link_card d s e g) as [[[]|ex] g1].
Qed.

Lemma for_cards_count (all_cards : list json) :
  ∀ linked_count g n g',
    for_cards entity_index all_cards linked_count g = (Ok n, g') →
    linked_count ≤ n ≤ linked_count + length all_cards
    ∧ size g' ≤ size g + 6 * (n - linked_count).
Proof.
  induction all_cards as [|card rest IH]; intros k g n g'; simpl.
  - intros [= <- <-]. lia.
  - unfold mbind, M_bind, bind.
    pose proof (process_card_adds_at_most card g) as Hsize.
    destruct (process_card entity_index card g) as [[[]|e] g1] eqn:Ecard; [| |done].
    + intros [Hn Hs]%IH. simpl in Hsize. lia.
    + apply process_card_not_counted in Ecard as ->.
      intros [Hn Hs]%IH. lia.
Qed.

(** X12.  When [enrich_with_cards] returns a count, the count is at most the
    number of entries of the extracted card collection, the graph has grown by
    at most six statements per counted card, and a count of zero means the
    graph is as it was. *)
Theorem enrich_with_cards_count (cards_data : json) (g : graph) (n : nat) :
  outcome (enrich_with_cards entity_index (Some cards_data)) g = Ok n →
  let enriched := graph_after (enrich_with_cards entity_index (Some cards_data)) g in
  (∃ all_cards len, extract_cards cards_data = Ok all_cards
                    ∧ py_len all_cards = Ok len ∧ n ≤ len)
  ∧ size enriched ≤ size g + 6 * n
  ∧ (n = 0 → enriched = g).
Proof.
  unfold outcome, graph_after. simpl. unfold enrich_cards_data.
  unfold mbind, M_bind, bind, lift, ret.
  destruct (extract_cards cards_data) as [all_cards|e] eqn:Eextract; [|done].
  destruct (py_len all_cards) as [len|e] eqn:Elen; [|done].
  case_bool_decide as Hlen.
  - simpl. intros [= <-]. split_and!; [|lia|done].
    exists all_cards, len. split_and!; [done..|lia].
  - destruct (py_iter all_cards) as [cards|e] eqn:Eiter; [|done].
    pose proof (inserts_only_for_cards entity_index cards 0 g) as Hext.
    destruct (for_cards entity_index cards 0 g) as [r g'] eqn:Efor. simpl.
    intros ->. apply for_cards_count in Efor as [Hn Hs].
    assert (length cards = len) as Hcards.
    { destruct all_cards; simplify_eq/=; try done.
      - by rewrite length_fmap.
      - unfold dict_keys. by rewrite !length_fmap. }
    split_and!.
    + exists all_cards, len. split_and!; [done..|lia].
    + by rewrite Nat.sub_0_r in Hs.
    + intros ->. simpl in Hs.
      symmetry. apply set_subseteq_size_eq; [|lia].
      injection Hext as _ ->. apply union_subseteq_l.
Qed.

End EnrichAdds.

Lemma enrich_with_cards_adds_linker_statements_witness :
  let entity_index := [("gandalf", URIRef "e1")] in
  let catalog := Some (JArr [JObj [("name", JStr "Gandalf"); ("type", JStr "Hero")]]) in
  let enriched :=
    graph_after (enrich_with_cards (runtime := example_runtime) entity_index catalog) ∅ in
  (METW "Gandalf", SCHEMA "additionalType", Literal "Hero" (Some "en") None) ∈ (∅ : graph)
  ∨ ∃ key entity_uri name,
      (key, entity_uri) ∈ dict_items entity_index
      ∧ (entity_uri, SCHEMA "subjectOf", METW name) ∈ enriched
      ∧ ((METW "Gandalf", SCHEMA "additionalType", Literal "Hero" (Some "en") None)
         = (entity_uri, SCHEMA "subjectOf", METW name)
         ∨ (METW "Gandalf" = METW name ∧ SCHEMA "additionalType" ∈ card_predicates)).
Proof.
  apply (enrich_with_cards_adds_linker_statements (runtime := example_runtime)
           [("gandalf", URIRef "e1")]
           (Some (JArr [JObj [("name", JStr "Gandalf"); ("type", JStr "Hero")]]))
           ∅ (METW "Gandalf") (SCHEMA "additionalType")
           (Literal "Hero" (Some "en") None)).
  apply (bool_decide_unpack _). by vm_compute.
Defined.

Lemma enrich_with_cards_count_witness :
  let entity_index := [("gandalf", URIRef "e1")] in
  let catalog :=
    JArr [JObj [("name", JStr "Gandalf"); ("type", JStr "Hero")];
          JObj [("name", JStr "Bilbo")]] in
  let enriched :=
    graph_after (enrich_with_cards (runtime := example_runtime) entity_index
                   (Some catalog)) ∅ in
  (∃ all_cards len, extract_cards catalog = Ok all_cards
                    ∧ py_len all_cards = Ok len ∧ 1 ≤ len)
  ∧ size enriched ≤ size (∅ : graph) + 6 * 1
  ∧ (1 = 0 → enriched = ∅).
Proof.
  apply (enrich_with_cards_count (runtime := example_runtime)
           [("gandalf", URIRef "e1")]
           (JArr [JObj [("name", JStr "Gandalf"); ("type", JStr "Hero")];
                  JObj [("name", JStr "Bilbo")]])
           ∅ 1).
  by vm_compute.
Defined.

(** ** The loop over the cards *)

Section EnrichLoop.
Context {runtime : PyRuntime}.
Variable entity_index : pydict node.

Lemma for_cards_app (before after : list json) :
  ∀ linked_count g,
    for_cards entity_index (before ++ after) linked_count g
    = match for_cards entity_index before linked_count g with
      | (Ok n, g') => for_cards entity_index after n g'
      | (Raise e, g') => (Raise e, g')
      end.
Proof.
  induction before as [|card before IH]; intros k g; simpl; [done|].
  unfold mbind, M_bind, bind.
  destruct (process_card entity_index card g) as [[linked|e] g1]; [|done].
  apply IH.
Qed.

Lemma process_card_plain (card : json) (g : graph) :
  plain_card card →
  process_card entity_index card g
  = match linked_entity entity_index card with
    | Some l => (Ok true, g ∪ list_to_set (card_statements l.1.1 l.1.2 l.2))
    | None => (Ok false, g)
    end.
Proof.
  intros (d & -> & Hname & Htype). unfold linked_entity.
  destruct Hname as [Hfalsy|[card_name Hname]].
  - rewrite process_card_skipped by done.
    destruct (resolve_card_name _); try done.
    simpl in Hfalsy. apply bool_decide_eq_false_1 in Hfalsy.
    by rewrite bool_decide_eq_false_2.
  - rewrite Hname. case_bool_decide as Hne.
    + destruct (find_best_match _ _ _) as [e|] eqn:Hm.
      * destruct (node_truthy e) eqn:He.
        -- rewrite (process_card_linked entity_index d card_name e g) by done.
           unfold mbind, M_bind, bind. by rewrite link_card_statements.
        -- unfold process_card. rewrite Hname. simpl.
           rewrite bool_decide_eq_true_2 by done. simpl. by rewrite Hm, He.
      * unfold process_card. rewrite Hname. simpl.
        rewrite bool_decide_eq_true_2 by done. simpl. by rewrite Hm.
    + apply process_card_skipped. by rewrite Hname, Hne.
Qed.

Lemma for_cards_plain (all_cards : list json) :
  Forall plain_card all_cards →
  ∀ linked_count g,
    for_cards entity_index all_cards linked_count g
    = (Ok (linked_count + length (omap (linked_entity entity_index) all_cards)),
       g ∪ linked_statements entity_index all_cards).
Proof.
  unfold linked_statements.
  induction 1 as [|card rest Hcard _ IH]; intros k g.
  - simpl. unfold ret. by rewrite Nat.add_0_r, union_empty_r_L.
  - cbn [for_cards]. unfold mbind, M_bind, bind. rewrite process_card_plain by done.
    cbn [omap list_omap].
    destruct (linked_entity entity_index card) as [l|]; rewrite IH.
    + rewrite fmap_cons, length_cons. cbn [union_list foldr].
      f_equal; [f_equal; lia|]. by rewrite (assoc_L (∪)).
    + done.
Qed.

Lemma process_card_broken (card : json) (g : graph) :
  broken_card card → process_card entity_index card g = (Raise AttributeError, g).
Proof.
  unfold broken_card, process_card. destruct card; try done.
  intros [-> Hstr]. simpl.
  destruct (resolve_card_name _); try done. by destruct (Hstr s).
Qed.

(** X13.  A catalog whose card collection is a list of cards that each run
    through the loop body: [enrich_with_cards] returns the number of cards
    whose name finds an entity, and the graph gains the statements of exactly
    those cards. *)
Theorem enrich_with_cards_plain_catalog (cards_data : json) (all_cards : list json)
    (g : graph) :
  extract_cards cards_data = Ok (JArr all_cards) →
  Forall plain_card all_cards →
  enrich_with_cards entity_index (Some cards_data) g
  = (Ok (length (omap (linked_entity entity_index) all_cards)),
     g ∪ linked_statements entity_index all_cards).
Proof.
  intros Hextract Hplain. simpl.
  unfold enrich_cards_data, mbind, M_bind, bind, lift, ret.
  rewrite Hextract. simpl. case_bool_decide as Hlen.
  - apply nil_length_inv in Hlen as ->. unfold linked_statements. simpl.
    by rewrite union_empty_r_L.
  - by rewrite for_cards_plain.
Qed.

(** X14.  No rollback: when the loop reaches a card that is not a mapping, or
    whose name is a true value other than a string, the run ends in
    [AttributeError]; the statements of the cards linked before it stay in
    the graph and the cards after it are not looked at. *)
Theorem enrich_with_cards_stops_at_broken_card (cards_data : json)
    (before after : list json) (broken : json) (g : graph) :
  extract_cards cards_data = Ok (JArr (before ++ broken :: after)) →
  Forall plain_card before →
  broken_card broken →
  enrich_with_cards entity_index (Some cards_data) g
  = (Raise AttributeError, g ∪ linked_statements entity_index before).
Proof.
  intros Hextract Hplain Hbroken. simpl.
  unfold enrich_cards_data, mbind, M_bind, bind, lift, ret.
  rewrite Hextract. simpl.
  rewrite bool_decide_eq_false_2
    by (rewrite length_app; simpl; lia).
  rewrite for_cards_app, for_cards_plain by done. simpl.
  unfold mbind, M_bind, bind. by rewrite process_card_broken.
Qed.

Lemma for_cards_permutation (cards cards' : list json) :
  cards ≡ₚ cards' →
  ∀ linked_count g n g',
    for_cards entity_index cards linked_count g = (Ok n, g') →
    for_cards entity_index cards' linked_count g = (Ok n, g').
Proof.
  induction 1 as [|card cards cards' _ IH|x y cards|cards1 cards2 cards3 _ IH1 _ IH2];
    intros k g n g'.
  - done.
  - simpl. unfold mbind, M_bind, bind.
    destruct (process_card entity_index card g) as [[linked|e] g1]; [|done]. apply IH.
  - simpl. unfold mbind, M_bind, bind.
    pose proof (inserts_only_process_card entity_index x) as Hx.
    pose proof (inserts_only_process_card entity_index y) as Hy.
    rewrite (Hy g), (Hx g).
    destruct (process_card entity_index y ∅) as [[ly|ey] Gy] eqn:Ey; [|done].
    destruct (process_card entity_index x ∅) as [[lx|ex] Gx] eqn:Ex; simpl.
    + rewrite (Hx (g ∪ Gy)), (Hy (g ∪ Gx)), Ex, Ey. simpl.
      replace (g ∪ Gx ∪ Gy) with (g ∪ Gy ∪ Gx)
        by (rewrite <- !(assoc_L (∪)); f_equal; apply (comm_L (∪))).
      by destruct lx, ly.
    + rewrite (Hx (g ∪ Gy)), Ex. done.
  - intros Hrun. by apply IH2, IH1.
Qed.

(** X15.  The order of the cards in a catalog that is a list does not matter
    to a run that returns: every reordering of the catalog returns the same
    count and leaves the same graph. *)
Theorem enrich_with_cards_order_irrelevant (cards cards' : list json)
    (g : graph) (n : nat) :
  cards ≡ₚ cards' →
  outcome (enrich_with_cards entity_index (Some (JArr cards))) g = Ok n →
  enrich_with_cards entity_index (Some (JArr cards')) g
  = enrich_with_cards entity_index (Some (JArr cards)) g.
Proof.
  intros Hperm. unfold outcome. simpl.
  unfold enrich_cards_data, mbind, M_bind, bind, lift, ret. simpl.
  rewrite <- (Permutation_length Hperm).
  case_bool_decide; [done|].
  destruct (for_cards entity_index cards 0 g) as [r g'] eqn:Efor. simpl. intros ->.
  by apply (for_cards_permutation _ _ Hperm).
Qed.

End EnrichLoop.

Lemma enrich_with_cards_plain_catalog_witness :
  let entity_index := [("gandalf", URIRef "e1")] in
  let all_cards :=
    [JObj [("name", JStr "Gandalf"); ("type", JStr "Hero")];
     JObj [("name", JObj [("en", JStr "Bilbo")])]] in
  enrich_with_cards (runtime := example_runtime) entity_index
    (Some (JObj [("AS", JObj [("cards",
             JObj [("1", JObj [("name", JStr "Gandalf"); ("type", JStr "Hero")]);
                   ("2", JObj [("name", JObj [("en", JStr "Bilbo")])])])])])) ∅
  = (Ok (length (omap (linked_entity (runtime := example_runtime) entity_index) all_cards)),
     ∅ ∪ linked_statements (runtime := example_runtime) entity_index all_cards).
Proof.
  apply (enrich_with_cards_plain_catalog (runtime := example_runtime)
           [("gandalf", URIRef "e1")]
           (JObj [("AS", JObj [("cards",
              JObj [("1", JObj [("name", JStr "Gandalf"); ("type", JStr "Hero")]);
                    ("2", JObj [("name", JObj [("en", JStr "Bilbo")])])])])])
           [JObj [("name", JStr "Gandalf"); ("type", JStr "Hero")];
            JObj [("name", JObj [("en", JStr "Bilbo")])]]
           ∅).
  - reflexivity.
  - repeat constructor.
    + eexists. split; [reflexivity|]. split; [right; by eexists|].
      intros v Hv. vm_compute in Hv. injection Hv as <-. by eexists.
    + eexists. split; [reflexivity|]. split; [right; by eexists|].
      intros v Hv. vm_compute in Hv. discriminate.
Defined.

Lemma enrich_with_cards_stops_at_broken_card_witness :
  let entity_index := [("gandalf", URIRef "e1")] in
  enrich_with_cards (runtime := example_runtime) entity_index
    (Some (JArr ([JObj [("name", JStr "Gandalf")]]
                 ++ JObj [("name", JInt 7)] :: [JObj [("name", JStr "gandalf")]]))) ∅
  = (Raise AttributeError,
     ∅ ∪ linked_statements (runtime := example_runtime) entity_index
           [JObj [("name", JStr "Gandalf")]]).
Proof.
  apply (enrich_with_cards_stops_at_broken_card (runtime := example_runtime)
           [("gandalf", URIRef "e1")]
           (JArr ([JObj [("name", JStr "Gandalf")]]
                  ++ JObj [("name", JInt 7)] :: [JObj [("name", JStr "gandalf")]]))
           [JObj [("name", JStr "Gandalf")]]
           [JObj [("name", JStr "gandalf")]]
           (JObj [("name", JInt 7)]) ∅).
  - reflexivity.
  - repeat constructor.
    eexists. split; [reflexivity|]. split; [right; by eexists|].
    intros v Hv. vm_compute in Hv. discriminate.
  - split; [reflexivity|]. intros s Hs. vm_compute in Hs. discriminate.
Defined.

Lemma enrich_with_cards_order_irrelevant_witness :
  let entity_index := [("gandalf", URIRef "e1"); ("bilbo", URIRef "e2")] in
  enrich_with_cards (runtime := example_runtime) entity_index
    (Some (JArr [JObj [("name", JStr "Bilbo")]; JObj [("name", JStr "Gandalf")]])) ∅
  = enrich_with_cards (runtime := example_runtime) entity_index
      (Some (JArr [JObj [("name", JStr "Gandalf")]; JObj [("name", JStr "Bilbo")]])) ∅.
Proof.
  apply (enrich_with_cards_order_irrelevant (runtime := example_runtime)
           [("gandalf", URIRef "e1"); ("bilbo", URIRef "e2")]
           [JObj [("name", JStr "Gandalf")]; JObj [("name", JStr "Bilbo")]]
           [JObj [("name", JStr "Bilbo")]; JObj [("name", JStr "Gandalf")]]
           ∅ 2).
  - apply perm_swap.
  - by vm_compute.
Defined.

(** ** The whole run *)

Section MainRun.
Context {runtime : PyRuntime}.

(** X16.  When [main] saves a graph, the loaded graph is part of it, and
    every other statement of it is the [schema:subjectOf] relation from an
    entity that has a [schema:name] in the loaded graph to a card node, or
    describes a card node that the saved graph relates to such an entity.  A
    loaded graph without any [schema:name] is saved as it was loaded. *)
Theorem main_saves_linked_cards (kg : graph) (cards_file : option json) (out : graph) :
  main (Some kg) cards_file = Saved out →
  kg ⊆ out
  ∧ (∀ s p o : node,
       (s, p, o) ∈ out →
       (s, p, o) ∈ kg
       ∨ ∃ entity_uri row_name name,
           (entity_uri, SCHEMA "name", row_name) ∈ kg
           ∧ (entity_uri, SCHEMA "subjectOf", METW name) ∈ out
           ∧ ((s, p, o) = (entity_uri, SCHEMA "subjectOf", METW name)
              ∨ (s = METW name ∧ p ∈ card_predicates)))
  ∧ ((∀ s o : node, (s, SCHEMA "name", o) ∉ kg) → out = kg).
Proof.
  intros Hmain.
  assert (out = graph_after (enrich_with_cards (entity_index_of kg) cards_file) kg)
    as Hout.
  { unfold main, graph_after in *. destruct cards_file as [cards_data|].
    - destruct (enrich_with_cards _ _ kg) as [[n|e] enriched]; [|done].
      by injection Hmain as <-.
    - by injection Hmain as <-. }
  assert (kg ⊆ out) as Hsub.
  { rewrite Hout. apply inserts_only_extends, inserts_only_enrich_with_cards. }
  assert (∀ s p o : node,
       (s, p, o) ∈ out →
       (s, p, o) ∈ kg
       ∨ ∃ entity_uri row_name name,
           (entity_uri, SCHEMA "name", row_name) ∈ kg
           ∧ (entity_uri, SCHEMA "subjectOf", METW name) ∈ out
           ∧ ((s, p, o) = (entity_uri, SCHEMA "subjectOf", METW name)
              ∨ (s = METW name ∧ p ∈ card_predicates))) as Hnew.
  { intros s p o Hin. rewrite Hout in Hin.
    apply enrich_with_cards_linker in Hin as [?|(key & e & name & Hkey & Hlink & Ht)];
      [by left|].
    right. rewrite <- Hout in Hlink.
    apply build_entity_index_rows in Hkey as (row_name & Hrow & _).
    apply elem_of_query_names in Hrow. by exists e, row_name, name. }
  split_and!; [done..|].
  intros Hnames. apply set_eq. intros [[s p] o]. split; [|apply Hsub].
  intros [?|(e & row_name & _ & Hname & _)]%Hnew; [done|].
  by destruct (Hnames e row_name).
Qed.

End MainRun.

Lemma main_saved {runtime : PyRuntime} (kg : graph) (cards_data : json) (n : nat) :
  outcome (enrich_with_cards (entity_index_of kg) (Some cards_data)) kg = Ok n →
  main (Some kg) (Some cards_data)
  = Saved (graph_after (enrich_with_cards (entity_index_of kg) (Some cards_data)) kg).
Proof.
  unfold main, outcome, graph_after.
  destruct (enrich_with_cards _ _ kg) as [[m|e] enriched]; [done|done].
Qed.

Lemma main_saves_linked_cards_witness :
  let kg : graph := {[ (URIRef "e1", SCHEMA "name", Literal "Gandalf" (Some "en") None) ]} in
  let out : graph :=
    graph_after (enrich_with_cards (runtime := example_runtime)
                   (entity_index_of (runtime := example_runtime) kg)
                   (Some (JArr [JObj [("name", JStr "Gandalf")]]))) kg in
  kg ⊆ out
  ∧ (∀ s p o : node,
       (s, p, o) ∈ out →
       (s, p, o) ∈ kg
       ∨ ∃ entity_uri row_name name,
           (entity_uri, SCHEMA "name", row_name) ∈ kg
           ∧ (entity_uri, SCHEMA "subjectOf", METW name) ∈ out
           ∧ ((s, p, o) = (entity_uri, SCHEMA "subjectOf", METW name)
              ∨ (s = METW name ∧ p ∈ card_predicates)))
  ∧ ((∀ s o : node, (s, SCHEMA "name", o) ∉ kg) → out = kg).
Proof.
  apply (main_saves_linked_cards (runtime := example_runtime)
           {[ (URIRef "e1", SCHEMA "name", Literal "Gandalf" (Some "en") None) ]}
           (Some (JArr [JObj [("name", JStr "Gandalf")]]))).
  apply (main_saved (runtime := example_runtime) _ _ 1).
  by vm_compute.
Defined.

(** ** Scores and lengths *)



(** ** The node of a card *)

Lemma replace_space_bytes (s : string) :
  PyStr.bytes (PyStr.replace_space "_" s)
  = (λ c, if decide (c = " "%char) then "_"%char else c) <$> PyStr.bytes s.
Proof.
  induction s as [|c s IH]; [done|].
  cbn [PyStr.replace_space]. unfold PyStr.bytes in *.
  cbn [String.list_ascii_of_string fmap list_fmap].
  destruct (decide (c = " "%char)) as [->|Hc].
  - change ("_" +:+ PyStr.replace_space "_" s)
      with (String "_"%char (PyStr.replace_space "_" s)).
    cbn [String.list_ascii_of_string]. by rewrite IH.
  - cbn [String.list_ascii_of_string]. by rewrite IH.
Qed.

(** X18.  A card without an ['id'] gets the node of the card namespace named
    by its resolved name in which every space has become an underscore and
    nothing else has changed: the identifier holds no space, and two names
    that differ only in spaces against underscores share one node. *)
Theorem card_uri_of_name {runtime : PyRuntime} (card : pydict json) (card_name : string) :
  dict_get "id" card = None →
  ∃ identifier,
    card_uri_of card card_name = METW identifier
    ∧ PyStr.bytes identifier
      = (λ c, if decide (c = " "%char) then "_"%char else c) <$> PyStr.bytes card_name
    ∧ (" "%char ∉ PyStr.bytes identifier)
    ∧ (∀ card' card_name',
         dict_get "id" card' = None →
         PyStr.replace_space "_" card_name' = PyStr.replace_space "_" card_name →
         card_uri_of card' card_name' = card_uri_of card card_name).
Proof.
  intros Hid. exists (PyStr.replace_space "_" card_name).
  assert (∀ c n, dict_get "id" c = None →
                 card_uri_of c n = METW (PyStr.replace_space "_" n)) as Huri.
  { intros c n Hc. unfold card_uri_of, dict_get_default. by rewrite Hc, py_str_JStr. }
  split_and!.
  - by apply Huri.
  - apply replace_space_bytes.
  - rewrite replace_space_bytes. intros (c & Hc & _)%list_elem_of_fmap.
    by case_decide.
  - intros card' card_name' Hid' Heq. by rewrite !Huri, Heq.
Qed.

Lemma card_uri_of_name_witness :
  ∃ identifier,
    card_uri_of (runtime := example_runtime) [("name", JStr "Minas Tirith")] "Minas Tirith"
    = METW identifier
    ∧ PyStr.bytes identifier
      = (λ c, if decide (c = " "%char) then "_"%char else c) <$> PyStr.bytes "Minas Tirith"
    ∧ (" "%char ∉ PyStr.bytes identifier)
    ∧ (∀ card' card_name',
         dict_get "id" card' = None →
         PyStr.replace_space "_" card_name' = PyStr.replace_space "_" "Minas Tirith" →
         card_uri_of (runtime := example_runtime) card' card_name'
         = card_uri_of (runtime := example_runtime)
             [("name", JStr "Minas Tirith")] "Minas Tirith").
Proof.
  apply (card_uri_of_name (runtime := example_runtime)
           [("name", JStr "Minas Tirith")] "Minas Tirith").
  reflexivity.
Defined.

(** ** Names that one entity only carries *)

Lemma build_entity_index_unambiguous {runtime : PyRuntime}
    (results : list (node * node)) (key : string) (e : node) :
  (∀ row, row ∈ results → key ∈ row_keys row → row.1 = e) →
  ∀ index,
    dict_get key (foldl index_row index results)
    = if bool_decide (Exists (λ row, key ∈ row_keys row) results)
      then Some e else dict_get key index.
Proof.
  induction results as [|row results IH]; intros Hsame index; cbn [foldl].
  - case_bool_decide as Hex; [|done]. by apply Exists_nil in Hex.
  - rewrite IH by (intros r Hr; apply Hsame; by right).
    rewrite index_row_get.
    destruct (decide (key ∈ row_keys row)) as [Hrow|Hrow].
    + rewrite (bool_decide_eq_true_2 (Exists _ (row :: results)))
        by by apply Exists_cons_hd.
      rewrite (bool_decide_eq_true_2 (key ∈ row_keys row)) by done.
      rewrite (Hsame row) by (done || by left). by case_bool_decide.
    + rewrite (bool_decide_eq_false_2 (key ∈ row_keys row)) by done.
      rewrite (bool_decide_ext (Exists _ (row :: results))
                 (Exists (λ row, key ∈ row_keys row) results)); [done|].
      rewrite Exists_cons. tauto.
Qed.

(** X19.  Whatever order the store enumerates its statements in: when an
    entity of the graph has a [schema:name] whose lowercase form, with or
    without its spaces, is the lowercased candidate, and no other entity has
    such a name, [find_best_match] over the index of the graph returns that
    entity, at every threshold. *)
Theorem find_best_match_unambiguous_name {runtime : PyRuntime} (g : graph) (entity row_name : node)
    (card_name : string) (t : Q) :
  (entity, SCHEMA "name", row_name) ∈ g →
  str_lower card_name ∈ row_keys (entity, row_name) →
  (∀ entity' row_name',
      (entity', SCHEMA "name", row_name') ∈ g →
      str_lower card_name ∈ row_keys (entity', row_name') → entity' = entity) →
  find_best_match (entity_index_of g) card_name t = Some entity.
Proof.
  intros Hin Hkey Hsame.
  unfold find_best_match, find_best_match_by, entity_index_of, _build_entity_index.
  rewrite (build_entity_index_unambiguous _ _ entity).
  - rewrite bool_decide_eq_true_2; [done|].
    apply Exists_exists. exists (entity, row_name).
    split; [by apply elem_of_query_names|done].
  - intros [entity' row_name'] Hrow%elem_of_query_names Hk.
    by apply (Hsame entity' row_name').
Qed.

Lemma find_best_match_unambiguous_name_witness :
  find_best_match (runtime := example_runtime)
    (entity_index_of (runtime := example_runtime)
       {[ (URIRef "e1", SCHEMA "name", Literal "Minas Tirith" None None);
          (URIRef "e2", SCHEMA "name", Literal "Gandalf" None None) ]})
    "MINASTIRITH" (17 # 20)
  = Some (URIRef "e1").
Proof.
  apply (find_best_match_unambiguous_name (runtime := example_runtime)
           {[ (URIRef "e1", SCHEMA "name", Literal "Minas Tirith" None None);
              (URIRef "e2", SCHEMA "name", Literal "Gandalf" None None) ]}
           (URIRef "e1") (Literal "Minas Tirith" None None) "MINASTIRITH" (17 # 20)).
  - apply (bool_decide_unpack _). by vm_compute.
  - apply (bool_decide_unpack _). by vm_compute.
  - intros entity' row_name' Hin Hkey.
    apply elem_of_union in Hin as [Hin|Hin]; apply elem_of_singleton in Hin;
      injection Hin as -> ->; [done|].
    exfalso. revert Hkey. apply (bool_decide_eq_false_1 _). by vm_compute.
Defined.
